(** * Reservoir mass balance: a shallow embedding of [reservoir_mass_balance.py]

    The Python module defines a class [Reservoir] (a storage-area curve, three
    weekly series and a mutable stored-volume array) and a driver
    [run_mass_balance] that steps a chain of reservoirs week by week.

    Numbers are IEEE-754 binary64 values, as in the NumPy arrays of the source:
    they are modelled by Rocq's primitive floats, so that every arithmetic
    operation and every comparison of the model is the one the program
    performs (rounding, infinities and NaN included).  The integers that the
    source mixes with them (the literal [0] of a release, a curve given as an
    array of integers) are read as the floats they convert to, which is exact
    below [2^53].  Reservoir objects are mutable and are passed around by
    reference: they live in a heap indexed by object identity, and every
    method runs in a monad threading the heap and the standard output, in
    which a raised exception keeps the mutations done before it. *)

From Stdlib Require Import ZArith Bool Lia Floats.
From stdpp Require Import base list.

(** ** Exceptions, standard output and the heap *)

(** The exceptions this module can raise.  [UnboundLocalError] is Python's
    subclass of [NameError] raised when a local variable is read before any
    assignment to it was executed. *)
Inductive exn : Type :=
  | ValueError
  | IndexError
  | UnboundLocalError.

Definition is_NameError (e : exn) : bool :=
  match e with
  | UnboundLocalError => true
  | _ => false
  end.

(** The lines the module prints, one constructor per [print] statement, with
    the values that are formatted into the line. *)
Inductive line : Type :=
  | StorageGreaterThanCapacity (stored_volume capacity : float)
  | WeekMustBeAtLeastOne (week : Z)
  | TotalUnfulfilledDemand (amount : float).

(** The fields of a [Reservoir] object.  The storage-area curve is kept as the
    list of its columns [(storage, area)], which are the rows of the
    transposed matrix [storage_area_curve_T] that [calculate_area] walks. *)
Record Reservoir : Type := mkReservoir {
  capacity : float;
  storage_area_curve : list (float * float);
  evaporation_series : list float;
  inflow_series : list float;
  demand_series : list float;
  stored_volume : list float
}.

Definition set_stored_volume (r : Reservoir) (sv : list float) : Reservoir :=
  mkReservoir (capacity r) (storage_area_curve r) (evaporation_series r)
              (inflow_series r) (demand_series r) sv.

(** Object identities. *)
Definition ref : Type := nat.

Record world : Type := mkWorld {
  heap : ref -> Reservoir;
  stdout : list line
}.

Definition heap_update (h : ref -> Reservoir) (self : ref) (r : Reservoir)
  : ref -> Reservoir :=
  fun o => if Nat.eqb o self then r else h o.

(** ** The monad of Python computations *)

Inductive outcome (A : Type) : Type :=
  | Return (a : A)
  | Raise (e : exn).
Arguments Return {A} a.
Arguments Raise {A} e.

Definition py (A : Type) : Type := world -> world * outcome A.

Definition ret {A} (a : A) : py A := fun w => (w, Return a).
Definition raise {A} (e : exn) : py A := fun w => (w, Raise e).
Definition bind {A B} (m : py A) (k : A -> py B) : py B :=
  fun w =>
    match m w with
    | (w', Return a) => k a w'
    | (w', Raise e) => (w', Raise e)
    end.

Declare Scope py_scope.
Delimit Scope py_scope with py.
Notation "'let*' x := m 'in' k" := (bind m (fun x => k))
  (at level 10, x name, m at level 100, k at level 200) : py_scope.
Notation "'let*' ' p := m 'in' k" := (bind m (fun p => k))
  (at level 10, p strict pattern, m at level 100, k at level 200) : py_scope.
Notation "m ;; k" := (bind m (fun _ => k))
  (at level 100, k at level 200, right associativity) : py_scope.

(** A computation without effect on the world. *)
Definition lift {A} (o : outcome A) : py A := fun w => (w, o).

Definition print (l : line) : py unit :=
  fun w => (mkWorld (heap w) (stdout w ++ [l]), Return tt).

(** [self.field]. *)
Definition attr {A} (self : ref) (field : Reservoir -> A) : py A :=
  fun w => (w, Return (field (heap w self))).

(** The array [self.__stored_volume] after an in-place write. *)
Definition set_attr_stored_volume (self : ref) (sv : list float) : py unit :=
  fun w =>
    (mkWorld (heap_update (heap w) self (set_stored_volume (heap w self) sv))
             (stdout w),
     Return tt).

(** ** Sequences *)

(** [xs[i]] for a Python [int] index: a negative index counts from the end,
    and an index outside [-len(xs) .. len(xs) - 1] raises [IndexError]. *)
Definition py_index {A} (xs : list A) (i : Z) : option nat :=
  let n := Z.of_nat (length xs) in
  if (0 <=? i)%Z && (i <? n)%Z then Some (Z.to_nat i)
  else if (- n <=? i)%Z && (i <? 0)%Z then Some (Z.to_nat (n + i))
  else None.

Definition getitem {A} (xs : list A) (i : Z) : py A :=
  match py_index xs i with
  | Some k =>
      match xs !! k with
      | Some x => ret x
      | None => raise IndexError
      end
  | None => raise IndexError
  end.

(** [xs[i] = v], in place: the new content of the array. *)
Definition setitem {A} (xs : list A) (i : Z) (v : A) : py (list A) :=
  match py_index xs i with
  | Some k => ret (<[k := v]> xs)
  | None => raise IndexError
  end.

(** [range(start, stop)]. *)
Definition range (start stop : Z) : list Z :=
  map (fun k => (start + Z.of_nat k)%Z) (seq 0 (Z.to_nat (stop - start))).

(** ** The class [Reservoir] *)

Local Open Scope float_scope.

(** [x > y] on floats. *)
Definition gtb (x y : float) : bool := y <? x.
Infix ">?" := gtb (at level 70, no associativity) : float_scope.

(** [__init__]: the two assertions on the shape of the curve hold by the type
    of [curve]; the capacity is the storage of the last column (an empty curve
    has none, and indexing it raises [IndexError]); the stored-volume array is
    [np.ones(n_weeks) * capacity], which has [n_weeks = len(demands)] entries. *)
Definition Reservoir_init (curve : list (float * float))
    (evaporations inflows demands : list float) : outcome Reservoir :=
  match last curve with
  | None => Raise IndexError
  | Some (cap, _) =>
      let n_weeks := length demands in
      Return (mkReservoir cap curve evaporations inflows demands
                (map (fun one => one * cap) (replicate n_weeks 1)))
  end.

(** The [for] loop of [calculate_area], entered at index [i] with
    [prev = storage_area_curve_T[i - 1]] and [rest = storage_area_curve_T[i:]].
    [a] is the local variable of that name: unbound ([None]) until the first
    iteration has run. *)
Fixpoint calculate_area_loop (stored_volume : float) (prev : float * float)
    (rest : list (float * float)) (a : option float) : outcome float :=
  match rest with
  | [] =>
      match a with
      | Some a => Return a
      | None => Raise UnboundLocalError
      end
  | (s, a) :: rest' =>
      if stored_volume <? s then
        let '(sm, am) := prev in
        Return (am + (stored_volume - sm) / (s - sm) * (a - am))
      else calculate_area_loop stored_volume (s, a) rest' (Some a)
  end.

Local Open Scope py_scope.

Definition calculate_area (self : ref) (stored_volume : float) : py float :=
  let* storage_area_curve_T := attr self storage_area_curve in
  let* capacity := attr self capacity in
  if stored_volume >? capacity then
    print (StorageGreaterThanCapacity stored_volume capacity) ;;
    raise ValueError
  else
    match storage_area_curve_T with
    | [] => raise UnboundLocalError
    | first :: rest =>
        lift (calculate_area_loop stored_volume first rest None)
    end.

Definition mass_balance (self : ref) (upstream_flow : float) (week : Z)
  : py (float * float) :=
  if (week <? 1)%Z then
    print (WeekMustBeAtLeastOne week) ;;
    raise ValueError
  else
    let* evaporation_series := attr self evaporation_series in
    let* rate := getitem evaporation_series week in
    let* stored := attr self stored_volume in
    let* previous := getitem stored (week - 1) in
    let* area := calculate_area self previous in
    let evaporation := rate * area in
    let* stored := attr self stored_volume in
    let* previous := getitem stored (week - 1) in
    let* inflow_series := attr self inflow_series in
    let* inflow := getitem inflow_series week in
    let* demand_series := attr self demand_series in
    let* demand := getitem demand_series week in
    let new_stored_volume :=
      previous + upstream_flow + inflow - evaporation - demand in
    let* capacity := attr self capacity in
    let '(release, unfulfilled_demand, new_stored_volume) :=
      if new_stored_volume >? capacity then
        (new_stored_volume - capacity, 0, capacity)
      else if new_stored_volume <? 0 then
        (0, - new_stored_volume, 0)
      else (0, 0, new_stored_volume) in
    let* stored := attr self stored_volume in
    let* stored' := setitem stored week new_stored_volume in
    set_attr_stored_volume self stored' ;;
    ret (release, unfulfilled_demand).

Definition get_stored_volume_series (self : ref) : py (list float) :=
  attr self stored_volume.

(** ** The driver *)

(** The local variables of [run_mass_balance] that are read after having been
    assigned in a loop body; [None] is an unbound local. *)
Record locals : Type := mkLocals {
  release : option float;
  unfulfilled_demand : option float;
  total_unfulfilled_demand : option float
}.

Definition unbound : locals := mkLocals None None None.

Definition read_local (v : option float) : py float :=
  match v with
  | Some x => ret x
  | None => raise UnboundLocalError
  end.

(** [for reservoir in reservoirs: ...], the inner loop. *)
Fixpoint reservoir_loop (reservoirs : list ref) (week : Z) (l : locals)
  : py locals :=
  match reservoirs with
  | [] => ret l
  | reservoir :: rest =>
      let* upstream := read_local (release l) in
      let* '(release, unfulfilled_demand) :=
        mass_balance reservoir upstream week in
      let* total := read_local (total_unfulfilled_demand l) in
      reservoir_loop rest week
        (mkLocals (Some release) (Some unfulfilled_demand)
                  (Some (total + unfulfilled_demand)))
  end.

(** [for week in weeks: ...], the outer loop. *)
Fixpoint week_loop (weeks : list Z) (reservoirs : list ref) (l : locals)
  : py locals :=
  match weeks with
  | [] => ret l
  | week :: rest =>
      let* l' :=
        reservoir_loop reservoirs week (mkLocals (Some 0) (Some 0) (Some 0)) in
      week_loop rest reservoirs l'
  end.

Definition run_mass_balance (reservoirs : list ref) (n_weeks : Z) : py unit :=
  let* l := week_loop (range 1 n_weeks) reservoirs unbound in
  let* unfulfilled_demand := read_local (unfulfilled_demand l) in
  if unfulfilled_demand >? 0 then
    print (TotalUnfulfilledDemand unfulfilled_demand)
  else ret tt.

(** ** The chain simulator, as the specification words it

    For each week from 1 to [n_weeks - 1]: the release starts at 0, every
    reservoir of the chain is stepped in order with the release of the one
    before it as its upstream input, its unfulfilled demand is added to the
    total of the week, and the release of the last reservoir leaves the
    system.  These definitions follow the specification, not the source: they
    are what the loops of [run_mass_balance] are compared with. *)

Fixpoint ChainSimulator_week (chain : list ref) (week : Z)
    (upstream total : float) : py float :=
  match chain with
  | [] => ret total
  | reservoir :: downstream =>
      let* '(release, unfulfilled_demand) :=
        mass_balance reservoir upstream week in
      ChainSimulator_week downstream week release (total + unfulfilled_demand)
  end.

Fixpoint ChainSimulator_weeks (chain : list ref) (week : Z) (count : nat)
  : py unit :=
  match count with
  | O => ret tt
  | S count' =>
      ChainSimulator_week chain week 0 0 ;;
      ChainSimulator_weeks chain (week + 1) count'
  end.

Definition ChainSimulator_run (chain : list ref) (n_weeks : Z) : py unit :=
  ChainSimulator_weeks chain 1 (Z.to_nat (n_weeks - 1)).

(** ** Well-formed reservoirs and the storage bounds *)

(** The data model of the specification: at least two breakpoints, the first
    at storage 0, storages strictly increasing. *)
Fixpoint increasing_from (s : float) (rest : list (float * float)) : bool :=
  match rest with
  | [] => true
  | (s', _) :: rest' => (s <? s') && increasing_from s' rest'
  end.

Definition well_formed_curve (curve : list (float * float)) : bool :=
  match curve with
  | (s0, _) :: (_ :: _) as rest => (s0 =? 0) && increasing_from s0 rest
  | _ => false
  end.

(** [0 <= v <= capacity]. *)
Definition within_bounds (capacity v : float) : bool :=
  (0 <=? v) && (v <=? capacity).

Definition storage_invariant (r : Reservoir) : Prop :=
  Forall (fun v => within_bounds (capacity r) v = true) (stored_volume r).

(** The clamp of [mass_balance] on its own: release, unfulfilled demand and
    new stored volume for a candidate storage. *)
Definition clamp (capacity candidate : float) : float * float * float :=
  if candidate >? capacity then (candidate - capacity, 0, capacity)
  else if candidate <? 0 then (0, - candidate, 0)
  else (0, 0, candidate).

(** The world after [self.__stored_volume[k] = v]. *)
Definition stored_volume_written (w : world) (self : ref) (k : nat) (v : float)
  : world :=
  mkWorld
    (heap_update (heap w) self
       (set_stored_volume (heap w self) (<[k := v]> (stored_volume (heap w self)))))
    (stdout w).

(** ** Fixtures: the reservoir of [test_reservoir_mass_balance.py] and
    variations on it *)

Definition test_storage_area_curve : list (float * float) :=
  [(0, 0); (500, 400); (800, 600); (1000, 900)].

(** [reservoir1] of [test_calculate_area]; [0.5 / 10] is the double that
    Python prints as [0.05]. *)
Definition test_reservoir : Reservoir :=
  mkReservoir 1000 test_storage_area_curve
    [0.5 / 10; 0.5 / 10; 0.5 / 10]
    [0.5 * 30; 0.5 * 30; 400]
    [0.5 * 400; 0.5 * 400; 0.5 * 400]
    [1000; 1000; 1000].

Definition test_world : world := mkWorld (fun _ => test_reservoir) [].

(** A full reservoir on the test curve, two weeks long, with the given weekly
    inflow and demand. *)
Definition two_week_reservoir (inflow demand : float) : Reservoir :=
  mkReservoir 1000 test_storage_area_curve
    [0.5 / 10; 0.5 / 10] [inflow; inflow] [demand; demand] [1000; 1000].

(** A reservoir on the test curve whose series hold one finite, positive
    value so large ([2^1023]) that sums and products of it overflow. *)
Definition huge : float := 0x1p1023.

Definition overflowing_reservoir : Reservoir :=
  mkReservoir 1000 test_storage_area_curve
    [huge; huge] [huge; huge] [200; 200] [1000; 1000].

(** Two reservoirs in a chain: object 0 upstream, every other identity
    downstream. *)
Definition two_reservoirs (upstream downstream : Reservoir) : world :=
  mkWorld (fun o => if Nat.eqb o 0 then upstream else downstream) [].

(** ** What a run needs and what it keeps *)

(** No stored volume is greater than the capacity: the condition under which
    [calculate_area] accepts every stored volume.  A NaN satisfies it. *)
Definition below_capacity (r : Reservoir) : Prop :=
  Forall (fun v => (v >? capacity r) = false) (stored_volume r).

(** A reservoir that [run_mass_balance] can step for [n_weeks] weeks: a curve
    of two breakpoints or more, a capacity that is not negative, series and
    stored volumes with an entry for every week. *)
Definition ready (n_weeks : Z) (r : Reservoir) : Prop :=
  (2 <= length (storage_area_curve r))%nat
  /\ (capacity r <? 0) = false
  /\ below_capacity r
  /\ (n_weeks <= Z.of_nat (length (evaporation_series r)))%Z
  /\ (n_weeks <= Z.of_nat (length (inflow_series r)))%Z
  /\ (n_weeks <= Z.of_nat (length (demand_series r)))%Z
  /\ (n_weeks <= Z.of_nat (length (stored_volume r)))%Z.

(** [r'] is [r] but for the stored volumes at the indices in [touched]. *)
Definition differs_only_on (touched : nat -> Prop) (r r' : Reservoir) : Prop :=
  capacity r' = capacity r
  /\ storage_area_curve r' = storage_area_curve r
  /\ evaporation_series r' = evaporation_series r
  /\ inflow_series r' = inflow_series r
  /\ demand_series r' = demand_series r
  /\ length (stored_volume r') = length (stored_volume r)
  /\ (forall k : nat, ~ touched k ->
        stored_volume r' !! k = stored_volume r !! k).

(** ** [generate_streamflow]

    The generator of NumPy is a global state from which [np.random.randn()]
    draws one standard normal value after the other: it is modelled by the
    sequence [randn] of its draws and a cursor into it.  [np.exp] and [np.sin]
    are the library's, taken as they are. *)
Section Streamflow.

Variable randn : nat -> float.
Variables np_exp np_sin : float -> float.

(** [np.pi]. *)
Definition np_pi : float := 0x1.921fb54442d18p+1.

(** A Python [int] in a float expression. *)
Definition float_of_int (z : Z) : float := of_uint63 (Uint63Axioms.of_Z z).

(** The value stored at index [i], from the draw made for it. *)
Definition streamflow_entry (sin_amplitude log_mu log_sigma : float)
    (draw : float) (i : Z) : float :=
  let streamflow :=
    draw * log_sigma
    + log_mu * (1 + sin_amplitude
                    * np_sin (2 * np_pi / 52 * float_of_int (i mod 52))) in
  np_exp streamflow.

(** [for i in range(n_weeks): ...] from index [i] on, [count] iterations
    left, [streamflows] being the array so far. *)
Fixpoint streamflow_loop (sin_amplitude log_mu log_sigma : float)
    (i : Z) (count : nat) (streamflows : list float) (cursor : nat)
  : list float * nat :=
  match count with
  | O => (streamflows, cursor)
  | S count' =>
      let draw := randn cursor in
      let streamflows' :=
        <[Z.to_nat i := streamflow_entry sin_amplitude log_mu log_sigma draw i]>
          streamflows in
      streamflow_loop sin_amplitude log_mu log_sigma (i + 1) count'
        streamflows' (S cursor)
  end.

(** [np.zeros(n_weeks)] raises [ValueError] for a negative dimension. *)
Definition generate_streamflow (n_weeks : Z)
    (sin_amplitude log_mu log_sigma : float) (cursor : nat)
  : outcome (list float) * nat :=
  if (n_weeks <? 0)%Z then (Raise ValueError, cursor)
  else
    let streamflows := replicate (Z.to_nat n_weeks) 0 in
    let '(streamflows, cursor') :=
      streamflow_loop sin_amplitude log_mu log_sigma 0 (Z.to_nat n_weeks)
        streamflows cursor in
    (Return streamflows, cursor').

End Streamflow.

(** The order of binary64 values, through a key in [Z * Z * Z]: comparing two
    values that are not NaN is comparing their keys lexicographically. *)
Definition SFkey (x : spec_float) : Z * Z * Z :=
  match x with
  | S754_nan => (0, 0, 0)
  | S754_zero _ => (0, 0, 0)
  | S754_infinity true => (-2, 0, 0)
  | S754_infinity false => (2, 0, 0)
  | S754_finite true m e => (-1, - e, Z.neg m)
  | S754_finite false m e => (1, e, Z.pos m)
  end%Z.

Definition SFnan (x : spec_float) : bool :=
  match x with
  | S754_nan => true
  | _ => false
  end.

Definition lex_lt (k1 k2 : Z * Z * Z) : Prop :=
  let '(a1, b1, c1) := k1 in
  let '(a2, b2, c2) := k2 in
  (a1 < a2 \/ (a1 = a2 /\ (b1 < b2 \/ (b1 = b2 /\ c1 < c2))))%Z.

Definition key_eq (k1 k2 : Z * Z * Z) : Prop :=
  let '(a1, b1, c1) := k1 in
  let '(a2, b2, c2) := k2 in
  a1 = a2 /\ b1 = b2 /\ c1 = c2.

Definition fkey (x : float) : Z * Z * Z := SFkey (Prim2SF x).

(** * Facts about binary64 arithmetic *)

Lemma SFcompare_key (x y : spec_float) :
  SFnan x = false -> SFnan y = false ->
  exists c, SFcompare x y = Some c /\
    match c with
    | Lt => lex_lt (SFkey x) (SFkey y)
    | Eq => key_eq (SFkey x) (SFkey y)
    | Gt => lex_lt (SFkey y) (SFkey x)
    end.
Proof.
  destruct x as [sx|sx| |sx mx ex], y as [sy|sy| |sy my ey]; try discriminate;
    intros _ _; cbn [SFcompare SFkey];
    try destruct sx; try destruct sy;
    try (eexists; split; [reflexivity|]; cbn; lia).
  all: change (Pos.compare_cont Eq mx my) with (Pos.compare mx my).
  all: destruct (Z.compare_spec ex ey);
    [destruct (Pos.compare_spec mx my)| |];
    (eexists; split; [reflexivity|]; cbn; subst; lia).
Qed.

Lemma SFcompare_nan (x y : spec_float) :
  SFnan x = true \/ SFnan y = true -> SFcompare x y = None.
Proof. destruct x, y; cbn; intros [H|H]; try discriminate; reflexivity. Qed.

Lemma is_nan_spec (x : float) : is_nan x = SFnan (Prim2SF x).
Proof.
  unfold is_nan. rewrite FloatAxioms.eqb_spec. unfold SFeqb.
  destruct (SFnan (Prim2SF x)) eqn:E.
  - destruct (Prim2SF x); try discriminate. reflexivity.
  - destruct (SFcompare_key _ _ E E) as [c [-> Hc]].
    destruct c; try reflexivity; exfalso;
      destruct (SFkey (Prim2SF x)) as [[a b] d]; cbn in Hc; lia.
Qed.

(** The three comparisons, each decided by the keys of its operands. *)
Lemma float_compare_cases (x y : float) :
  (is_nan x = true \/ is_nan y = true) /\
    (x <? y) = false /\ (x <=? y) = false /\ (x =? y) = false
  \/ is_nan x = false /\ is_nan y = false /\
     (lex_lt (fkey x) (fkey y) /\
        (x <? y) = true /\ (x <=? y) = true /\ (x =? y) = false
      \/ key_eq (fkey x) (fkey y) /\
        (x <? y) = false /\ (x <=? y) = true /\ (x =? y) = true
      \/ lex_lt (fkey y) (fkey x) /\
        (x <? y) = false /\ (x <=? y) = false /\ (x =? y) = false).
Proof.
  rewrite FloatAxioms.ltb_spec, FloatAxioms.leb_spec, FloatAxioms.eqb_spec,
    !is_nan_spec.
  unfold SFltb, SFleb, SFeqb, fkey.
  destruct (SFnan (Prim2SF x)) eqn:Ex.
  { left. rewrite SFcompare_nan by auto. auto. }
  destruct (SFnan (Prim2SF y)) eqn:Ey.
  { left. rewrite SFcompare_nan by auto. auto. }
  right. destruct (SFcompare_key _ _ Ex Ey) as [c [-> Hc]].
  destruct c; auto 10.
Qed.

Lemma bool_false_iff (b : bool) (P : Prop) :
  (b = true <-> P) -> (b = false <-> ~ P).
Proof. destruct b; intuition congruence. Qed.

Lemma lex_lt_irrefl (k1 k2 : Z * Z * Z) : lex_lt k1 k2 -> key_eq k1 k2 -> False.
Proof. destruct k1 as [[a1 b1] c1], k2 as [[a2 b2] c2]; cbn; lia. Qed.

Lemma lex_lt_asym (k1 k2 : Z * Z * Z) : lex_lt k1 k2 -> lex_lt k2 k1 -> False.
Proof. destruct k1 as [[a1 b1] c1], k2 as [[a2 b2] c2]; cbn; lia. Qed.

Lemma ltb_key (x y : float) :
  (x <? y) = true <->
  is_nan x = false /\ is_nan y = false /\ lex_lt (fkey x) (fkey y).
Proof.
  destruct (float_compare_cases x y)
    as [[Hn (-> & _)]|(Hx & Hy & [(Hk & -> & _)|[(Hk & -> & _)|(Hk & -> & _)]])].
  - split; [discriminate|]. intros (? & ? & _). destruct Hn; congruence.
  - tauto.
  - split; [discriminate|]. intros (_ & _ & ?). destruct (lex_lt_irrefl _ _ H Hk).
  - split; [discriminate|]. intros (_ & _ & ?). destruct (lex_lt_asym _ _ H Hk).
Qed.

Lemma leb_key (x y : float) :
  (x <=? y) = true <->
  is_nan x = false /\ is_nan y = false /\
  (lex_lt (fkey x) (fkey y) \/ key_eq (fkey x) (fkey y)).
Proof.
  destruct (float_compare_cases x y)
    as [[Hn (_ & -> & _)]|(Hx & Hy &
          [(Hk & _ & -> & _)|[(Hk & _ & -> & _)|(Hk & _ & -> & _)]])].
  - split; [discriminate|]. intros (? & ? & _). destruct Hn; congruence.
  - tauto.
  - tauto.
  - split; [discriminate|]. intros (_ & _ & [?|?]).
    + destruct (lex_lt_asym _ _ H Hk).
    + destruct (fkey x) as [[a1 b1] c1], (fkey y) as [[a2 b2] c2]; cbn in *; lia.
Qed.

Lemma eqb_key (x y : float) :
  (x =? y) = true <->
  is_nan x = false /\ is_nan y = false /\ key_eq (fkey x) (fkey y).
Proof.
  destruct (float_compare_cases x y)
    as [[Hn (_ & _ & ->)]|(Hx & Hy &
          [(Hk & _ & _ & ->)|[(Hk & _ & _ & ->)|(Hk & _ & _ & ->)]])].
  - split; [discriminate|]. intros (? & ? & _). destruct Hn; congruence.
  - split; [discriminate|]. intros (_ & _ & ?). destruct (lex_lt_irrefl _ _ Hk H).
  - tauto.
  - split; [discriminate|]. intros (_ & _ & ?).
    destruct (fkey x) as [[a1 b1] c1], (fkey y) as [[a2 b2] c2]; cbn in *; lia.
Qed.

Lemma fkey_zero : fkey 0 = (0, 0, 0)%Z.
Proof. reflexivity. Qed.

(** Goals and hypotheses made of float comparisons, closed by linear
    arithmetic on the keys. *)
Ltac float_order :=
  unfold gtb, within_bounds in *;
  repeat match goal with
  | H : _ && _ = true |- _ => apply andb_prop in H; destruct H
  | |- _ && _ = true => apply andb_true_intro; split
  end;
  repeat match goal with
  | H : (_ <? _) = true |- _ => apply ltb_key in H
  | H : (_ <=? _) = true |- _ => apply leb_key in H
  | H : (_ =? _) = true |- _ => apply eqb_key in H
  | H : (_ <? _) = false |- _ => apply (bool_false_iff _ _ (ltb_key _ _)) in H
  | H : (_ <=? _) = false |- _ => apply (bool_false_iff _ _ (leb_key _ _)) in H
  | H : (_ =? _) = false |- _ => apply (bool_false_iff _ _ (eqb_key _ _)) in H
  | |- (_ <? _) = true => apply ltb_key
  | |- (_ <=? _) = true => apply leb_key
  | |- (_ =? _) = true => apply eqb_key
  | |- (_ <? _) = false => apply (bool_false_iff _ _ (ltb_key _ _))
  | |- (_ <=? _) = false => apply (bool_false_iff _ _ (leb_key _ _))
  | |- (_ =? _) = false => apply (bool_false_iff _ _ (eqb_key _ _))
  end;
  rewrite ?fkey_zero in *;
  change (is_nan 0) with false in *;
  repeat match goal with
  | |- context [fkey ?x] =>
      let a := fresh "a" in let b := fresh "b" in let c := fresh "c" in
      destruct (fkey x) as [[a b] c]
  | H : context [fkey ?x] |- _ =>
      let a := fresh "a" in let b := fresh "b" in let c := fresh "c" in
      destruct (fkey x) as [[a b] c]
  end;
  repeat match goal with
  | |- context [is_nan ?x] => destruct (is_nan x)
  | H : context [is_nan ?x] |- _ => destruct (is_nan x)
  end;
  cbn [lex_lt key_eq] in *;
  intuition (try congruence; try lia).

Lemma ltb_trans (x y z : float) :
  (x <? y) = true -> (y <? z) = true -> (x <? z) = true.
Proof. intros. float_order. Qed.

Lemma ltb_leb_trans (x y z : float) :
  (x <? y) = true -> (y <=? z) = true -> (x <? z) = true.
Proof. intros. float_order. Qed.

Lemma ltb_leb (x y : float) : (x <? y) = true -> (x <=? y) = true.
Proof. intros. float_order. Qed.

Lemma ltb_antisym (x y : float) : (x <? y) = true -> (y <? x) = false.
Proof. intros. float_order. Qed.

Lemma leb_refl (x : float) : is_nan x = false -> (x <=? x) = true.
Proof. intros. float_order. Qed.

Lemma not_ltb_leb (x y : float) :
  is_nan x = false -> is_nan y = false -> (y <? x) = false -> (x <=? y) = true.
Proof. intros. float_order. Qed.

(** Multiplying by [1.0] is exact: the product has the mantissa of [x]
    shifted by 52 bits, which rounding shifts back without loss. *)
Lemma SF64mul_one_l (x : spec_float) :
  valid_binary x = true ->
  SF64mul (S754_finite false 4503599627370496 (-52)) x = x.
Proof.
  destruct x as [s|s| |s m e]; try reflexivity.
  cbn [SpecFloat.valid_binary]. unfold bounded, canonical_mantissa.
  intros H. apply andb_prop in H as [Hc Hb]. apply Z.eqb_eq in Hc.
  unfold SF64mul, SFmul. cbn [xorb]. unfold binary_round_aux.
  assert (Hs : shr_fexp prec emax (Z.pos (4503599627370496 * m)) (-52 + e)
                 loc_Exact
               = ({| shr_m := Z.pos m; shr_r := false; shr_s := false |}, e)).
  { unfold shr_fexp. cbv [Pos.mul].
    cbn [Zdigits2 digits2_pos shr_record_of_loc].
    rewrite !Pos2Z.inj_succ.
    replace (Z.succ _ + (-52 + e))%Z with (Z.pos (digits2_pos m) + e)%Z by lia.
    rewrite Hc. replace (e - (-52 + e))%Z with 52%Z by lia.
    unfold shr. cbn [iter_pos shr_1 orb]. f_equal. lia. }
  rewrite Hs. cbn [shr_m loc_of_shr_record round_nearest_even].
  unfold shr_fexp. cbn [Zdigits2]. rewrite Hc, Z.sub_diag.
  cbn [shr shr_record_of_loc shr_m]. rewrite Hb. reflexivity.
Qed.

Lemma mul_one_l (x : float) : 1 * x = x.
Proof.
  apply Prim2SF_inj. rewrite mul_spec.
  change (Prim2SF 1) with (S754_finite false 4503599627370496 (-52)).
  apply SF64mul_one_l, Prim2SF_valid.
Qed.

(** * Sequences *)

Lemma getitem_nonneg {A} (xs : list A) (i : Z) :
  (0 <= i)%Z ->
  getitem xs i =
  match xs !! Z.to_nat i with
  | Some x => ret x
  | None => raise IndexError
  end.
Proof.
  intros Hi. unfold getitem, py_index.
  destruct (Z.ltb_spec i (Z.of_nat (length xs))) as [Hlt|Hge].
  - replace (0 <=? i)%Z with true by (symmetry; apply Z.leb_le; lia).
    reflexivity.
  - rewrite andb_false_r.
    replace (i <? 0)%Z with false by (symmetry; apply Z.ltb_ge; lia).
    rewrite andb_false_r.
    rewrite (proj2 (lookup_ge_None xs (Z.to_nat i))) by lia. reflexivity.
Qed.

Lemma setitem_nonneg {A} (xs : list A) (i : Z) (v : A) :
  (0 <= i)%Z ->
  setitem xs i v =
  if bool_decide (Z.to_nat i < length xs)%nat
  then ret (<[Z.to_nat i := v]> xs)
  else raise IndexError.
Proof.
  intros Hi. unfold setitem, py_index.
  destruct (Z.ltb_spec i (Z.of_nat (length xs))) as [Hlt|Hge].
  - replace (0 <=? i)%Z with true by (symmetry; apply Z.leb_le; lia).
    rewrite bool_decide_eq_true_2 by lia. reflexivity.
  - rewrite andb_false_r.
    replace (i <? 0)%Z with false by (symmetry; apply Z.ltb_ge; lia).
    rewrite andb_false_r.
    rewrite bool_decide_eq_false_2 by lia. reflexivity.
Qed.

Lemma range_lookup (start stop : Z) (k : nat) (week : Z) :
  range start stop !! k = Some week <->
  week = (start + Z.of_nat k)%Z /\ (week < stop)%Z.
Proof.
  unfold range. rewrite list_lookup_fmap.
  destruct (decide (k < Z.to_nat (stop - start))%nat) as [Hk|Hk].
  - rewrite lookup_seq_lt by exact Hk. cbn. split.
    + intros [= <-]. lia.
    + intros [-> _]. reflexivity.
  - rewrite lookup_seq_ge by lia. cbn. split; [discriminate|lia].
Qed.

Lemma range_empty (start stop : Z) : (stop <= start)%Z -> range start stop = [].
Proof.
  intros H. unfold range. replace (Z.to_nat (stop - start)) with O by lia.
  reflexivity.
Qed.

Lemma range_cons (start stop : Z) :
  (start < stop)%Z -> range start stop = start :: range (start + 1) stop.
Proof.
  intros H. unfold range.
  replace (Z.to_nat (stop - start)) with (S (Z.to_nat (stop - (start + 1))))
    by lia.
  cbn [seq map]. f_equal; [lia|].
  rewrite <- seq_shift, map_map. apply map_ext. intros k. lia.
Qed.

(** * [calculate_area] *)

Lemma calculate_area_unfold (self : ref) (v : float) (w : world) :
  calculate_area self v w =
  if v >? capacity (heap w self) then
    (mkWorld (heap w)
       (stdout w ++ [StorageGreaterThanCapacity v (capacity (heap w self))]),
     Raise ValueError)
  else
    match storage_area_curve (heap w self) with
    | [] => (w, Raise UnboundLocalError)
    | first :: rest => (w, calculate_area_loop v first rest None)
    end.
Proof.
  unfold calculate_area, bind, attr, gtb. cbn.
  destruct (capacity (heap w self) <? v); [reflexivity|].
  destruct (storage_area_curve (heap w self)); reflexivity.
Qed.

Lemma calculate_area_Return (self : ref) (v : float) (w w' : world) (a : float) :
  calculate_area self v w = (w', Return a) ->
  w' = w /\ (v >? capacity (heap w self)) = false.
Proof.
  rewrite calculate_area_unfold.
  destruct (v >? capacity (heap w self)); [discriminate|].
  destruct (storage_area_curve (heap w self)); [discriminate|].
  intros [= <- _]. auto.
Qed.

Lemma calculate_area_heap (self : ref) (v : float) (w w' : world)
    (o : outcome float) :
  calculate_area self v w = (w', o) -> heap w' = heap w.
Proof.
  rewrite calculate_area_unfold.
  destruct (v >? capacity (heap w self)); [intros [= <- _]; reflexivity|].
  destruct (storage_area_curve (heap w self)); intros [= <- _]; reflexivity.
Qed.

(** Once a breakpoint has been visited the loop cannot fail. *)
Lemma calculate_area_loop_bound (v : float) (prev : float * float)
    (rest : list (float * float)) (a : float) :
  exists area, calculate_area_loop v prev rest (Some a) = Return area.
Proof.
  revert prev a. induction rest as [|[s a'] rest IH]; intros prev a; cbn.
  - eauto.
  - destruct (v <? s); [destruct prev; eauto|apply IH].
Qed.

Lemma calculate_area_loop_total (v : float) (first second : float * float)
    (rest : list (float * float)) :
  exists area, calculate_area_loop v first (second :: rest) None = Return area.
Proof.
  destruct second as [s a]. cbn.
  destruct (v <? s); [destruct first; eauto|apply calculate_area_loop_bound].
Qed.

(** A stored volume that no breakpoint exceeds gets the area of the last
    breakpoint. *)
Lemma calculate_area_loop_last (v : float) (prev : float * float)
    (rest : list (float * float)) (a : option float) :
  forallb (fun '(s, _) => negb (v <? s)) rest = true ->
  calculate_area_loop v prev rest a =
  match last rest, a with
  | Some (_, a'), _ => Return a'
  | None, Some a' => Return a'
  | None, None => Raise UnboundLocalError
  end.
Proof.
  revert prev a. induction rest as [|[s a'] rest IH]; intros prev a; cbn.
  - destruct a; reflexivity.
  - intros H. apply andb_prop in H as [Hs Hrest].
    apply negb_true_iff in Hs. rewrite Hs, IH by exact Hrest.
    destruct rest as [|p rest]; [reflexivity|].
    change (last (_ :: p :: rest)) with (last (p :: rest)).
    destruct (last (p :: rest)) as [[? ?]|] eqn:E; [reflexivity|].
    apply last_None in E. discriminate.
Qed.

(** * [mass_balance] *)

Lemma mass_balance_unfold (self : ref) (upstream_flow : float) (week : Z)
    (w : world) :
  (1 <= week)%Z ->
  mass_balance self upstream_flow week w =
  let r := heap w self in
  let n := Z.to_nat week in
  match evaporation_series r !! n with
  | None => (w, Raise IndexError)
  | Some rate =>
  match stored_volume r !! Z.to_nat (week - 1) with
  | None => (w, Raise IndexError)
  | Some previous =>
  match calculate_area self previous w with
  | (w1, Raise e) => (w1, Raise e)
  | (_, Return area) =>
  match inflow_series r !! n with
  | None => (w, Raise IndexError)
  | Some inflow =>
  match demand_series r !! n with
  | None => (w, Raise IndexError)
  | Some demand =>
      let '(release, unfulfilled_demand, new_stored_volume) :=
        clamp (capacity r)
          (previous + upstream_flow + inflow - rate * area - demand) in
      if bool_decide (n < length (stored_volume r))%nat then
        (stored_volume_written w self n new_stored_volume,
         Return (release, unfulfilled_demand))
      else (w, Raise IndexError)
  end end end end end.
Proof.
  intros Hweek. unfold mass_balance.
  replace (week <? 1)%Z with false by (symmetry; apply Z.ltb_ge; lia).
  unfold bind at 1. unfold attr at 1.
  unfold bind at 1. rewrite getitem_nonneg by lia.
  cbn zeta. destruct (evaporation_series (heap w self) !! Z.to_nat week)
    as [rate|]; [|reflexivity].
  unfold ret at 1. unfold bind at 1. unfold attr at 1.
  unfold bind at 1. rewrite getitem_nonneg by lia.
  destruct (stored_volume (heap w self) !! Z.to_nat (week - 1))
    as [previous|] eqn:Hprevious; [|reflexivity].
  unfold ret at 1. unfold bind at 1.
  destruct (calculate_area self previous w) as [w1 [area|e]] eqn:Harea;
    [|reflexivity].
  apply calculate_area_Return in Harea as [-> _].
  unfold bind at 1. unfold attr at 1.
  unfold bind at 1. rewrite getitem_nonneg by lia.
  rewrite Hprevious. unfold ret at 1.
  unfold bind at 1. unfold attr at 1.
  unfold bind at 1. rewrite getitem_nonneg by lia.
  destruct (inflow_series (heap w self) !! Z.to_nat week)
    as [inflow|]; [|reflexivity].
  unfold ret at 1. unfold bind at 1. unfold attr at 1.
  unfold bind at 1. rewrite getitem_nonneg by lia.
  destruct (demand_series (heap w self) !! Z.to_nat week)
    as [demand|]; [|reflexivity].
  unfold ret at 1. unfold bind at 1. unfold attr at 1. unfold clamp.
  set (candidate := previous + upstream_flow + inflow - rate * area - demand).
  destruct (candidate >? capacity (heap w self));
    [|destruct (candidate <? 0)];
    unfold bind at 1; unfold attr at 1; unfold bind at 1;
    (rewrite setitem_nonneg by lia);
    (destruct (bool_decide (Z.to_nat week < length (stored_volume (heap w self)))%nat);
     reflexivity).
Qed.

Lemma mass_balance_invalid_week (self : ref) (upstream_flow : float) (week : Z)
    (w : world) :
  (week < 1)%Z ->
  mass_balance self upstream_flow week w =
  (mkWorld (heap w) (stdout w ++ [WeekMustBeAtLeastOne week]), Raise ValueError).
Proof.
  intros H. unfold mass_balance.
  replace (week <? 1)%Z with true by (symmetry; apply Z.ltb_lt; lia).
  reflexivity.
Qed.

(** Everything a successful call has read, computed and written. *)
Lemma mass_balance_Return_inv (self : ref) (upstream_flow : float) (week : Z)
    (w w' : world) (release unfulfilled_demand : float) :
  mass_balance self upstream_flow week w
  = (w', Return (release, unfulfilled_demand)) ->
  let r := heap w self in
  let n := Z.to_nat week in
  exists rate previous area inflow demand new_stored_volume,
    (1 <= week)%Z
    /\ evaporation_series r !! n = Some rate
    /\ stored_volume r !! Z.to_nat (week - 1) = Some previous
    /\ calculate_area self previous w = (w, Return area)
    /\ inflow_series r !! n = Some inflow
    /\ demand_series r !! n = Some demand
    /\ (n < length (stored_volume r))%nat
    /\ clamp (capacity r)
         (previous + upstream_flow + inflow - rate * area - demand)
       = (release, unfulfilled_demand, new_stored_volume)
    /\ w' = stored_volume_written w self n new_stored_volume.
Proof.
  intros H r n.
  destruct (Z.lt_ge_cases week 1) as [Hlt|Hge].
  { rewrite mass_balance_invalid_week in H by exact Hlt. discriminate. }
  rewrite mass_balance_unfold in H by exact Hge. cbn zeta in H.
  fold r n in H.
  destruct (evaporation_series r !! n) as [rate|]; [|discriminate].
  destruct (stored_volume r !! Z.to_nat (week - 1)) as [previous|];
    [|discriminate].
  destruct (calculate_area self previous w) as [w1 [area|e]] eqn:Harea;
    [|discriminate].
  pose proof (calculate_area_Return _ _ _ _ _ Harea) as [-> _].
  destruct (inflow_series r !! n) as [inflow|]; [|discriminate].
  destruct (demand_series r !! n) as [demand|]; [|discriminate].
  destruct (clamp _ _) as [[rel unf] v] eqn:Hclamp.
  destruct (bool_decide (n < length (stored_volume r))%nat) eqn:Hn;
    [|discriminate].
  apply bool_decide_eq_true_1 in Hn. injection H as <- <- <-.
  exists rate, previous, area, inflow, demand, v. auto 10.
Qed.

(** A call that raises has written nothing. *)
Lemma mass_balance_Raise_heap (self : ref) (upstream_flow : float) (week : Z)
    (w w' : world) (e : exn) :
  mass_balance self upstream_flow week w = (w', Raise e) -> heap w' = heap w.
Proof.
  intros H.
  destruct (Z.lt_ge_cases week 1) as [Hlt|Hge].
  { rewrite mass_balance_invalid_week in H by exact Hlt.
    injection H as <- _. reflexivity. }
  rewrite mass_balance_unfold in H by exact Hge. cbn zeta in H.
  destruct (evaporation_series _ !! _); [|injection H as <- _; reflexivity].
  destruct (stored_volume _ !! _) as [previous|];
    [|injection H as <- _; reflexivity].
  destruct (calculate_area self previous w) as [w1 [area|e']] eqn:Harea.
  2: { injection H as <- _. eapply calculate_area_heap, Harea. }
  destruct (inflow_series _ !! _); [|injection H as <- _; reflexivity].
  destruct (demand_series _ !! _); [|injection H as <- _; reflexivity].
  destruct (clamp _ _) as [[rel unf] v].
  destruct (bool_decide _); [discriminate|].
  injection H as <- _. reflexivity.
Qed.

Lemma heap_update_same (h : ref -> Reservoir) (self : ref) (r : Reservoir) :
  heap_update h self r self = r.
Proof. unfold heap_update. rewrite Nat.eqb_refl. reflexivity. Qed.

Lemma heap_update_other (h : ref -> Reservoir) (self o : ref) (r : Reservoir) :
  o <> self -> heap_update h self r o = h o.
Proof.
  intros H. unfold heap_update.
  destruct (Nat.eqb_spec o self); [contradiction|reflexivity].
Qed.

Lemma clamp_cases (cap candidate : float) :
  (candidate >? cap) = true
    /\ clamp cap candidate = (candidate - cap, 0, cap)
  \/ (candidate >? cap) = false /\ (candidate <? 0) = true
    /\ clamp cap candidate = (0, - candidate, 0)
  \/ (candidate >? cap) = false /\ (candidate <? 0) = false
    /\ clamp cap candidate = (0, 0, candidate).
Proof.
  unfold clamp. destruct (candidate >? cap); [auto|].
  destruct (candidate <? 0); auto.
Qed.

(** ** The shape that [__init__] gives a reservoir *)

Lemma Reservoir_init_Return (curve : list (float * float))
    (evaporations inflows demands : list float) (r : Reservoir) :
  Reservoir_init curve evaporations inflows demands = Return r ->
  exists area,
    last curve = Some (capacity r, area)
    /\ r = mkReservoir (capacity r) curve evaporations inflows demands
             (replicate (length demands) (capacity r)).
Proof.
  unfold Reservoir_init. destruct (last curve) as [[cap area]|]; [|discriminate].
  intros [= <-]. cbn. exists area. split; [reflexivity|]. f_equal.
  induction (length demands) as [|k IH]; cbn; [reflexivity|].
  rewrite mul_one_l, IH. reflexivity.
Qed.

(** * The mass-balance step *)

(** C1: for a week >= 1 whose reads succeed, [mass_balance] computes the
    candidate storage [stored_volume[week-1] + upstream_release + inflow[week]
    - evaporation - demand[week]] and clamps it, in this order: above the
    capacity it returns the excess as release, no unfulfilled demand, and
    writes the capacity; else below zero it returns the deficit as unfulfilled
    demand, no release, and writes zero; otherwise it returns (0, 0) and
    writes the candidate.  In every case one of the two returned values is
    zero. *)
Theorem C1_mass_balance_clamp_policy (self : ref) (upstream_release : float)
    (week : Z) (w : world) (rate previous area inflow demand : float) :
  let r := heap w self in
  let n := Z.to_nat week in
  (1 <= week)%Z ->
  length (stored_volume r) = length (demand_series r) ->
  evaporation_series r !! n = Some rate ->
  stored_volume r !! Z.to_nat (week - 1) = Some previous ->
  calculate_area self previous w = (w, Return area) ->
  inflow_series r !! n = Some inflow ->
  demand_series r !! n = Some demand ->
  let candidate := previous + upstream_release + inflow - rate * area - demand in
  ((candidate >? capacity r) = true ->
     mass_balance self upstream_release week w
     = (stored_volume_written w self n (capacity r),
        Return (candidate - capacity r, 0)))
  /\ ((candidate >? capacity r) = false -> (candidate <? 0) = true ->
     mass_balance self upstream_release week w
     = (stored_volume_written w self n 0, Return (0, - candidate)))
  /\ ((candidate >? capacity r) = false -> (candidate <? 0) = false ->
     mass_balance self upstream_release week w
     = (stored_volume_written w self n candidate, Return (0, 0)))
  /\ (exists w' release unfulfilled_demand,
       mass_balance self upstream_release week w
       = (w', Return (release, unfulfilled_demand))
       /\ (release = 0 \/ unfulfilled_demand = 0)).
Proof.
  intros r n Hweek Hlen Hrate Hprevious Harea Hinflow Hdemand candidate.
  assert (Hn : (n < length (stored_volume r))%nat).
  { rewrite Hlen. eapply lookup_lt_Some, Hdemand. }
  assert (Hstep : mass_balance self upstream_release week w =
                  let '(release, unfulfilled_demand, v) :=
                    clamp (capacity r) candidate in
                  (stored_volume_written w self n v,
                   Return (release, unfulfilled_demand))).
  { rewrite mass_balance_unfold by exact Hweek. cbn zeta. fold r n.
    rewrite Hrate, Hprevious, Harea, Hinflow, Hdemand.
    fold candidate. destruct (clamp (capacity r) candidate) as [[? ?] ?].
    rewrite bool_decide_eq_true_2 by exact Hn. reflexivity. }
  rewrite Hstep. unfold clamp.
  repeat split.
  - intros ->. reflexivity.
  - intros -> ->. reflexivity.
  - intros -> ->. reflexivity.
  - destruct (candidate >? capacity r); [|destruct (candidate <? 0)]; eauto 8.
Qed.

(** The test fixture is what [__init__] builds from the test's arguments. *)
Lemma test_reservoir_init :
  Reservoir_init test_storage_area_curve
    [0.5 / 10; 0.5 / 10; 0.5 / 10] [0.5 * 30; 0.5 * 30; 400]
    [0.5 * 400; 0.5 * 400; 0.5 * 400]
  = Return test_reservoir.
Proof. vm_compute. reflexivity. Qed.

Lemma C1_mass_balance_clamp_policy_witness :
  mass_balance 0%nat 100 1 test_world
  = (stored_volume_written test_world 0%nat 1 870, Return (0, 0)).
Proof.
  refine (proj1 (proj2 (proj2
    (C1_mass_balance_clamp_policy 0%nat 100 1 test_world
       (0.5 / 10) 1000 900 15 200 _ _ _ _ _ _ _))) _ _);
    first [reflexivity | lia].
Defined.

(** C2: the evaporation of a step is [evaporation_rate[week]] times the area
    at the storage of the week before, [stored_volume[week-1]], as it was when
    the step started.  On the test reservoir (capacity 1000, area 900 at
    capacity, rate 0.05, demand 200, inflow 15 in week 1, full at week 0) and
    with no upstream release, the evaporation is 45, the candidate is 770, the
    step returns no release and writes 770 at index 1; the area at the new
    storage, 580, plays no part. *)
Theorem C2_evaporation_uses_previous_storage :
  (forall (self : ref) (upstream_release : float) (week : Z) (w w' : world)
          (release unfulfilled_demand : float),
     mass_balance self upstream_release week w
     = (w', Return (release, unfulfilled_demand)) ->
     exists rate previous area inflow demand new_stored_volume,
       evaporation_series (heap w self) !! Z.to_nat week = Some rate
       /\ stored_volume (heap w self) !! Z.to_nat (week - 1) = Some previous
       /\ calculate_area self previous w = (w, Return area)
       /\ inflow_series (heap w self) !! Z.to_nat week = Some inflow
       /\ demand_series (heap w self) !! Z.to_nat week = Some demand
       /\ clamp (capacity (heap w self))
            (previous + upstream_release + inflow - rate * area - demand)
          = (release, unfulfilled_demand, new_stored_volume)
       /\ stored_volume (heap w' self)
          = <[Z.to_nat week := new_stored_volume]> (stored_volume (heap w self)))
  /\ (capacity test_reservoir = 1000
      /\ evaporation_series test_reservoir !! 1%nat = Some (0.5 / 10)
      /\ stored_volume test_reservoir !! 0%nat = Some 1000
      /\ inflow_series test_reservoir !! 1%nat = Some 15
      /\ demand_series test_reservoir !! 1%nat = Some 200
      /\ calculate_area 0%nat 1000 test_world = (test_world, Return 900)
      /\ 0.5 / 10 * 900 = 45
      /\ 1000 + 0 + 15 - 45 - 200 = 770
      /\ mass_balance 0%nat 0 1 test_world
         = (stored_volume_written test_world 0%nat 1 770, Return (0, 0))
      /\ stored_volume (heap (stored_volume_written test_world 0%nat 1 770) 0%nat)
         = [1000; 770; 1000]
      /\ calculate_area 0%nat 770 test_world = (test_world, Return 580)).
Proof.
  split.
  - intros self upstream_release week w w' release unfulfilled_demand H.
    apply mass_balance_Return_inv in H.
    destruct H as (rate & previous & area & inflow & demand & v & Hweek & Hrate
                   & Hprevious & Harea & Hinflow & Hdemand & Hn & Hclamp & ->).
    exists rate, previous, area, inflow, demand, v.
    repeat (split; [assumption|]).
    cbn. rewrite heap_update_same. reflexivity.
  - repeat split; vm_compute; reflexivity.
Qed.

Lemma C2_evaporation_uses_previous_storage_witness :
  exists rate previous area inflow demand new_stored_volume,
    evaporation_series (heap test_world 0%nat) !! Z.to_nat 1 = Some rate
    /\ stored_volume (heap test_world 0%nat) !! Z.to_nat (1 - 1) = Some previous
    /\ calculate_area 0%nat previous test_world = (test_world, Return area)
    /\ inflow_series (heap test_world 0%nat) !! Z.to_nat 1 = Some inflow
    /\ demand_series (heap test_world 0%nat) !! Z.to_nat 1 = Some demand
    /\ clamp (capacity (heap test_world 0%nat))
         (previous + 0 + inflow - rate * area - demand)
       = (0, 0, new_stored_volume)
    /\ stored_volume
         (heap (stored_volume_written test_world 0%nat 1 770) 0%nat)
       = <[Z.to_nat 1 := new_stored_volume]>
           (stored_volume (heap test_world 0%nat)).
Proof.
  apply (proj1 C2_evaporation_uses_previous_storage 0%nat 0 1%Z test_world
           (stored_volume_written test_world 0%nat 1 770) 0 0).
  vm_compute. reflexivity.
Defined.

(** * The storage-area curve *)

(** C3: on the curve with storages [0, 500, 800, 1000] and areas
    [0, 400, 600, 900] the area is 400 at storage 500, 500 at storage 650 and
    900 at storage 1000.  At 500 the strict comparison passes over the
    breakpoint 500 itself and the value comes from the segment from 500 to
    800, whose numerator [500 - 500] is zero; at 650 it is interpolated on the
    same segment; at 1000 no breakpoint is greater, and the area of the last
    breakpoint is returned as it is. *)
Theorem C3_area_on_test_curve :
  storage_area_curve test_reservoir
  = [(0, 0); (500, 400); (800, 600); (1000, 900)]
  /\ calculate_area 0%nat 500 test_world = (test_world, Return 400)
  /\ calculate_area 0%nat 650 test_world = (test_world, Return 500)
  /\ calculate_area 0%nat 1000 test_world = (test_world, Return 900)
  /\ ((500 <? 500) = false /\ (500 <? 800) = true
      /\ calculate_area_loop 500 (0, 0) [(500, 400); (800, 600); (1000, 900)] None
         = Return (400 + (500 - 500) / (800 - 500) * (600 - 400))
      /\ 500 - 500 = 0)
  /\ ((650 <? 500) = false /\ (650 <? 800) = true
      /\ calculate_area_loop 650 (0, 0) [(500, 400); (800, 600); (1000, 900)] None
         = Return (400 + (650 - 500) / (800 - 500) * (600 - 400)))
  /\ (forallb (fun '(s, _) => negb (1000 <? s))
        [(500, 400); (800, 600); (1000, 900)] = true
      /\ last [(500, 400); (800, 600); (1000, 900)] = Some (1000, 900)).
Proof. repeat split; vm_compute; reflexivity. Qed.

(** * Errors and frame of the step *)

(** C8: for every week below 1, [mass_balance] raises [ValueError] (the
    specification's InvalidWeekError) before reading or writing anything: it
    prints its message, returns nothing, and leaves every reservoir, the
    stored volumes included, as it was. *)
Theorem C8_invalid_week_raises_before_any_write (self : ref)
    (upstream_release : float) (week : Z) (w : world) :
  (week < 1)%Z ->
  exists w',
    mass_balance self upstream_release week w = (w', Raise ValueError)
    /\ heap w' = heap w
    /\ stored_volume (heap w' self) = stored_volume (heap w self)
    /\ stdout w' = stdout w ++ [WeekMustBeAtLeastOne week].
Proof.
  intros H. rewrite mass_balance_invalid_week by exact H.
  eexists. split; [reflexivity|]. cbn. auto.
Qed.

Lemma C8_invalid_week_raises_before_any_write_witness :
  exists w',
    mass_balance 0%nat 0 0 test_world = (w', Raise ValueError)
    /\ heap w' = heap test_world
    /\ stored_volume (heap w' 0%nat) = stored_volume (heap test_world 0%nat)
    /\ stdout w' = stdout test_world ++ [WeekMustBeAtLeastOne 0].
Proof.
  apply (C8_invalid_week_raises_before_any_write 0%nat 0 0%Z test_world). lia.
Defined.

(** C9: a successful [mass_balance] call changes one cell only, index [week]
    of the stored volumes of its reservoir.  The other indices, the length of
    the array, the curve, the capacity, the three series, every other
    reservoir and the standard output are as before, and the call returns the
    pair of the release and the unfulfilled demand. *)
Theorem C9_mass_balance_writes_one_cell (self : ref) (upstream_release : float)
    (week : Z) (w w' : world) (result : float * float) :
  mass_balance self upstream_release week w = (w', Return result) ->
  (1 <= week)%Z
  /\ (Z.to_nat week < length (stored_volume (heap w self)))%nat
  /\ (exists new_stored_volume,
        stored_volume (heap w' self)
        = <[Z.to_nat week := new_stored_volume]> (stored_volume (heap w self))
        /\ stored_volume (heap w' self) !! Z.to_nat week = Some new_stored_volume)
  /\ (forall k : nat, k <> Z.to_nat week ->
        stored_volume (heap w' self) !! k = stored_volume (heap w self) !! k)
  /\ length (stored_volume (heap w' self)) = length (stored_volume (heap w self))
  /\ storage_area_curve (heap w' self) = storage_area_curve (heap w self)
  /\ capacity (heap w' self) = capacity (heap w self)
  /\ evaporation_series (heap w' self) = evaporation_series (heap w self)
  /\ inflow_series (heap w' self) = inflow_series (heap w self)
  /\ demand_series (heap w' self) = demand_series (heap w self)
  /\ (forall other : ref, other <> self -> heap w' other = heap w other)
  /\ stdout w' = stdout w.
Proof.
  destruct result as [release unfulfilled_demand]. intros H.
  apply mass_balance_Return_inv in H.
  destruct H as (rate & previous & area & inflow & demand & v & Hweek & _ & _
                 & _ & _ & _ & Hn & _ & ->).
  cbn [stored_volume_written heap stdout]. rewrite heap_update_same.
  cbn [set_stored_volume stored_volume storage_area_curve capacity
       evaporation_series inflow_series demand_series].
  split; [exact Hweek|]. split; [exact Hn|].
  split. { exists v. split; [reflexivity|]. apply list_lookup_insert_eq, Hn. }
  split. { intros k Hk. apply list_lookup_insert_ne. congruence. }
  split. { apply length_insert. }
  repeat (split; [reflexivity|]).
  split; [|reflexivity].
  intros other Hother. apply heap_update_other, Hother.
Qed.

Lemma C9_mass_balance_writes_one_cell_witness :
  stored_volume (heap (stored_volume_written test_world 0%nat 1 870) 0%nat)
    !! 2%nat
  = stored_volume (heap test_world 0%nat) !! 2%nat.
Proof.
  refine (proj1 (proj2 (proj2 (proj2
    (C9_mass_balance_writes_one_cell 0%nat 100 1 test_world
       (stored_volume_written test_world 0%nat 1 870) (0, 0) _)))) 2%nat _).
  - vm_compute. reflexivity.
  - cbn. lia.
Defined.

(** * Well-formed curves *)

Lemma increasing_from_lt (s : float) (rest : list (float * float))
    (c a : float) :
  increasing_from s rest = true -> (c, a) ∈ rest -> (s <? c) = true.
Proof.
  revert s. induction rest as [|[s' a'] rest IH]; intros s H Hin.
  - inversion Hin.
  - cbn in H. apply andb_prop in H as [Hs Hrest].
    apply elem_of_cons in Hin as [[= -> ->]|Hin]; [exact Hs|].
    eapply ltb_trans; [exact Hs|]. apply IH; assumption.
Qed.

(** On a well-formed curve the last storage, which is the capacity, is
    greater than zero, and not smaller than the second breakpoint. *)
Lemma well_formed_curve_last (s0 a0 s1 a1 cap area : float)
    (rest : list (float * float)) :
  well_formed_curve ((s0, a0) :: (s1, a1) :: rest) = true ->
  last ((s0, a0) :: (s1, a1) :: rest) = Some (cap, area) ->
  (s0 =? 0) = true /\ (s0 <? s1) = true /\ (s1 <=? cap) = true
  /\ (0 <? cap) = true.
Proof.
  cbn [well_formed_curve increasing_from]. intros H Hlast.
  apply andb_prop in H as [H0 H]. apply andb_prop in H as [H1 Hrest].
  rewrite last_cons_cons in Hlast.
  assert (Hcap : (s1 <=? cap) = true).
  { destruct rest as [|p rest].
    - injection Hlast as <- <-. float_order.
    - rewrite last_cons_cons in Hlast. apply ltb_leb.
      eapply increasing_from_lt; [exact Hrest|].
      eapply last_Some_elem_of, Hlast. }
  repeat split; try assumption. float_order.
Qed.

(** C7: [calculate_area] raises [ValueError] (the specification's
    OutOfRangeError) for every stored volume greater than the capacity and for
    no other: when the stored volume is not greater than the capacity and the
    curve has two breakpoints or more, it returns an area.  For a negative
    stored volume on a well-formed curve it does not raise: the first
    comparison of the loop succeeds and the value returned is the first
    segment's formula, extrapolated below its first breakpoint. *)
Theorem C7_area_raises_only_above_capacity :
  (forall (self : ref) (v : float) (w : world),
     (v >? capacity (heap w self)) = true ->
     calculate_area self v w
     = (mkWorld (heap w)
          (stdout w ++ [StorageGreaterThanCapacity v (capacity (heap w self))]),
        Raise ValueError))
  /\ (forall (self : ref) (v : float) (w w' : world),
        calculate_area self v w = (w', Raise ValueError) ->
        (v >? capacity (heap w self)) = true)
  /\ (forall (self : ref) (v : float) (w : world),
        (v >? capacity (heap w self)) = false ->
        (2 <= length (storage_area_curve (heap w self)))%nat ->
        exists area, calculate_area self v w = (w, Return area))
  /\ (forall (self : ref) (v : float) (w : world) (s0 a0 s1 a1 area : float)
             (rest : list (float * float)),
        storage_area_curve (heap w self) = (s0, a0) :: (s1, a1) :: rest ->
        well_formed_curve (storage_area_curve (heap w self)) = true ->
        last (storage_area_curve (heap w self))
        = Some (capacity (heap w self), area) ->
        (v <? 0) = true ->
        calculate_area self v w
        = (w, Return (a0 + (v - s0) / (s1 - s0) * (a1 - a0)))).
Proof.
  split; [|split; [|split]].
  - intros self v w H. rewrite calculate_area_unfold, H. reflexivity.
  - intros self v w w'. rewrite calculate_area_unfold.
    destruct (v >? capacity (heap w self)); [reflexivity|].
    destruct (storage_area_curve (heap w self)) as [|first rest];
      [discriminate|].
    destruct rest as [|second rest]; [discriminate|].
    destruct (calculate_area_loop_total v first second rest) as [area ->].
    discriminate.
  - intros self v w H Hlen. rewrite calculate_area_unfold, H.
    destruct (storage_area_curve (heap w self)) as [|first rest];
      [cbn in Hlen; lia|].
    destruct rest as [|second rest]; [cbn in Hlen; lia|].
    destruct (calculate_area_loop_total v first second rest) as [area ->].
    eauto.
  - intros self v w s0 a0 s1 a1 area rest Hcurve Hwf Hlast Hv.
    rewrite calculate_area_unfold. rewrite Hcurve in *.
    destruct (well_formed_curve_last _ _ _ _ _ _ _ Hwf Hlast)
      as (H0 & H1 & Hcap & _).
    replace (v >? capacity (heap w self)) with false
      by (symmetry; float_order).
    cbn [calculate_area_loop].
    replace (v <? s1) with true by (symmetry; float_order).
    reflexivity.
Qed.

Lemma C7_area_raises_only_above_capacity_witness :
  calculate_area 0%nat (-10) test_world = (test_world, Return (-8))
  /\ calculate_area 0%nat 1000000 test_world
     = (mkWorld (heap test_world)
          (stdout test_world ++ [StorageGreaterThanCapacity 1000000 1000]),
        Raise ValueError).
Proof.
  split.
  - refine (proj2 (proj2 (proj2 C7_area_raises_only_above_capacity))
              0%nat (-10) test_world 0 0 500 400 900
              [(800, 600); (1000, 900)] _ _ _ _); reflexivity.
  - refine (proj1 C7_area_raises_only_above_capacity 0%nat 1000000
              test_world _); reflexivity.
Defined.

(** * The bounds of the stored volumes *)

Lemma storage_invariant_written (w : world) (self : ref) (k : nat) (v : float) :
  storage_invariant (heap w self) ->
  within_bounds (capacity (heap w self)) v = true ->
  storage_invariant (heap (stored_volume_written w self k v) self).
Proof.
  intros Hinv Hv. unfold storage_invariant, stored_volume_written.
  cbn [heap]. rewrite heap_update_same. cbn. apply Forall_insert; assumption.
Qed.

Lemma clamp_within_bounds (cap candidate release unfulfilled v : float) :
  (0 <=? cap) = true ->
  clamp cap candidate = (release, unfulfilled, v) ->
  is_nan v = is_nan candidate
  /\ (is_nan candidate = false -> within_bounds cap v = true).
Proof.
  intros Hcap Hclamp.
  destruct (clamp_cases cap candidate)
    as [(Hgt & E)|[(Hgt & Hlt & E)|(Hgt & Hlt & E)]];
    rewrite E in Hclamp; injection Hclamp as <- <- <-; unfold gtb in Hgt.
  - split; [float_order|]. intros _. float_order.
  - split; [float_order|]. intros _. float_order.
  - split; [reflexivity|]. intros Hnan. float_order.
Qed.

(** C4, as the code has it: the constructor fills the stored volumes with the
    capacity, index 0 included, so they lie in [0, capacity] when the capacity
    is not negative, which a well-formed curve guarantees.  A call of
    [mass_balance] that raises writes nothing.  A successful call writes NaN
    when its candidate storage is NaN, and otherwise a value in
    [0, capacity], which keeps every stored volume in [0, capacity]. *)
Theorem C4_stored_volume_within_bounds_unless_nan :
  (forall (curve : list (float * float)) (evaporations inflows demands : list float)
          (r : Reservoir),
     Reservoir_init curve evaporations inflows demands = Return r ->
     length (stored_volume r) = length demands
     /\ Forall (fun v => v = capacity r) (stored_volume r)
     /\ ((0 <=? capacity r) = true -> storage_invariant r)
     /\ (well_formed_curve curve = true -> (0 <=? capacity r) = true))
  /\ (forall (self : ref) (upstream_release : float) (week : Z) (w w' : world)
             (release unfulfilled_demand : float),
        (0 <=? capacity (heap w self)) = true ->
        storage_invariant (heap w self) ->
        mass_balance self upstream_release week w
        = (w', Return (release, unfulfilled_demand)) ->
        exists rate previous area inflow demand v,
          evaporation_series (heap w self) !! Z.to_nat week = Some rate
          /\ stored_volume (heap w self) !! Z.to_nat (week - 1) = Some previous
          /\ calculate_area self previous w = (w, Return area)
          /\ inflow_series (heap w self) !! Z.to_nat week = Some inflow
          /\ demand_series (heap w self) !! Z.to_nat week = Some demand
          /\ capacity (heap w' self) = capacity (heap w self)
          /\ stored_volume (heap w' self) !! Z.to_nat week = Some v
          /\ let candidate :=
               previous + upstream_release + inflow - rate * area - demand in
             is_nan v = is_nan candidate
             /\ (is_nan candidate = false ->
                 within_bounds (capacity (heap w self)) v = true
                 /\ storage_invariant (heap w' self)))
  /\ (forall (self : ref) (upstream_release : float) (week : Z) (w w' : world)
             (e : exn),
        mass_balance self upstream_release week w = (w', Raise e) ->
        heap w' = heap w).
Proof.
  split; [|split].
  - intros curve evaporations inflows demands r H.
    destruct (Reservoir_init_Return _ _ _ _ _ H) as (area & Hlast & Hr).
    assert (Hsv : stored_volume r = replicate (length demands) (capacity r))
      by (rewrite Hr at 1; reflexivity).
    assert (Hcurve : storage_area_curve r = curve)
      by (rewrite Hr; reflexivity).
    split. { rewrite Hsv. apply length_replicate. }
    split. { rewrite Hsv. apply Forall_replicate. reflexivity. }
    split.
    + intros Hcap. unfold storage_invariant. rewrite Hsv.
      apply Forall_replicate. float_order.
    + intros Hwf.
      destruct curve as [|[s0 a0] [|[s1 a1] rest]]; try discriminate.
      destruct (well_formed_curve_last _ _ _ _ _ _ _ Hwf Hlast)
        as (_ & _ & _ & Hpos).
      apply ltb_leb, Hpos.
  - intros self upstream_release week w w' release unfulfilled_demand
      Hcap Hinv H.
    apply mass_balance_Return_inv in H.
    destruct H as (rate & previous & area & inflow & demand & v & Hweek & Hrate
                   & Hprevious & Harea & Hinflow & Hdemand & Hn & Hclamp & ->).
    exists rate, previous, area, inflow, demand, v.
    repeat (split; [assumption|]).
    split. { cbn. rewrite heap_update_same. reflexivity. }
    split. { cbn. rewrite heap_update_same. cbn.
             apply list_lookup_insert_eq, Hn. }
    cbn zeta. destruct (clamp_within_bounds _ _ _ _ _ Hcap Hclamp) as [Hv Hb].
    split; [exact Hv|]. intros Hnan. split; [auto|].
    apply storage_invariant_written; auto.
  - intros self upstream_release week w w' e.
    apply mass_balance_Raise_heap.
Qed.

Lemma test_reservoir_invariant : storage_invariant test_reservoir.
Proof. repeat constructor. Qed.

Lemma C4_stored_volume_within_bounds_unless_nan_witness :
  storage_invariant (heap (stored_volume_written test_world 0%nat 1 870) 0%nat).
Proof.
  destruct (proj1 (proj2 C4_stored_volume_within_bounds_unless_nan)
              0%nat 100 1%Z test_world
              (stored_volume_written test_world 0%nat 1 870) 0 0)
    as (rate & previous & area & inflow & demand & v & _ & _ & _ & _ & _ & _
        & Hv & Hnan & Hbounds).
  - reflexivity.
  - exact test_reservoir_invariant.
  - vm_compute. reflexivity.
  - injection Hv as <-. apply Hbounds. rewrite <- Hnan. reflexivity.
Defined.

(** C4 as the specification states it fails: the test reservoir has capacity
    1000 and all its stored volumes are 1000, yet [mass_balance(nan, 1)]
    succeeds and writes NaN at index 1, which is not in [0, 1000].  No NaN
    need be passed in: with a finite upstream release, inflow and evaporation
    rate of [2^1023] the sum overflows to infinity, so does the evaporation,
    and their difference is NaN. *)
Lemma C4_counterexample_nan_stored :
  ((0 <=? capacity (heap test_world 0%nat)) = true
   /\ storage_invariant (heap test_world 0%nat)
   /\ mass_balance 0%nat nan 1 test_world
      = (stored_volume_written test_world 0%nat 1 nan, Return (0, 0))
   /\ stored_volume (heap (stored_volume_written test_world 0%nat 1 nan) 0%nat)
      = [1000; nan; 1000]
   /\ ~ storage_invariant
         (heap (stored_volume_written test_world 0%nat 1 nan) 0%nat))
  /\ (let w := mkWorld (fun _ => overflowing_reservoir) [] in
      (0 <=? capacity (heap w 0%nat)) = true
      /\ storage_invariant (heap w 0%nat)
      /\ is_finite huge = true /\ (0 <? huge) = true
      /\ mass_balance 0%nat huge 1 w
         = (stored_volume_written w 0%nat 1 nan, Return (0, 0))
      /\ ~ storage_invariant (heap (stored_volume_written w 0%nat 1 nan) 0%nat)).
Proof.
  assert (Hnan : forall r : Reservoir,
            capacity r = 1000 -> stored_volume r !! 1%nat = Some nan ->
            ~ storage_invariant r).
  { intros r Hcap Hsv Hinv. unfold storage_invariant in Hinv.
    rewrite Forall_lookup in Hinv. specialize (Hinv 1%nat nan Hsv).
    rewrite Hcap in Hinv. discriminate Hinv. }
  split.
  - split; [reflexivity|]. split; [exact test_reservoir_invariant|].
    split; [vm_compute; reflexivity|]. split; [reflexivity|].
    apply Hnan; reflexivity.
  - cbn zeta. split; [reflexivity|]. split; [repeat constructor|].
    split; [reflexivity|]. split; [reflexivity|].
    split; [vm_compute; reflexivity|].
    apply Hnan; reflexivity.
Qed.

(** * The driver *)

Lemma reservoir_loop_total (chain : list ref) (week : Z)
    (upstream total : float) (unfulfilled : option float) (w : world) :
  (let* l := reservoir_loop chain week
               (mkLocals (Some upstream) unfulfilled (Some total)) in
   ret (total_unfulfilled_demand l)) w
  = (let* t := ChainSimulator_week chain week upstream total in
     ret (Some t)) w.
Proof.
  revert upstream total unfulfilled w.
  induction chain as [|reservoir chain IH]; intros upstream total unfulfilled w.
  - reflexivity.
  - cbn [reservoir_loop ChainSimulator_week release total_unfulfilled_demand
         read_local].
    unfold bind, ret in IH |- *.
    destruct (mass_balance reservoir upstream week w) as [w1 [[rel unf]|e]];
      [apply IH|reflexivity].
Qed.

Lemma week_loop_chain (chain : list ref) (count : nat) (week : Z) (l : locals)
    (w : world) :
  (week_loop (range week (week + Z.of_nat count)) chain l ;; ret tt) w
  = ChainSimulator_weeks chain week count w.
Proof.
  revert week l w. induction count as [|count IH]; intros week l w.
  - rewrite range_empty by lia. reflexivity.
  - rewrite range_cons by lia.
    replace (week + Z.of_nat (S count))%Z with (week + 1 + Z.of_nat count)%Z
      by lia.
    cbn [week_loop ChainSimulator_weeks].
    pose proof (reservoir_loop_total chain week 0 0 (Some 0) w) as Hweek.
    specialize (IH (week + 1)%Z). unfold bind, ret in Hweek, IH |- *.
    destruct (reservoir_loop chain week (mkLocals (Some 0) (Some 0) (Some 0)) w)
      as [w1 [l1|e1]];
      destruct (ChainSimulator_week chain week 0 0 w) as [w2 [t|e2]];
      try discriminate.
    + injection Hweek as -> _. apply (IH l1 w2).
    + injection Hweek as -> ->. reflexivity.
Qed.

(** What the driver prints is decided by the local [unfulfilled_demand]
    alone, as the loops left it: [total_unfulfilled_demand] is never read. *)
Lemma run_mass_balance_after_loops (chain : list ref) (n_weeks : Z)
    (w w1 : world) (release unfulfilled total : option float) :
  week_loop (range 1 n_weeks) chain unbound w
  = (w1, Return (mkLocals release unfulfilled total)) ->
  run_mass_balance chain n_weeks w
  = match unfulfilled with
    | None => (w1, Raise UnboundLocalError)
    | Some u =>
        if u >? 0
        then (mkWorld (heap w1) (stdout w1 ++ [TotalUnfulfilledDemand u]),
              Return tt)
        else (w1, Return tt)
    end.
Proof.
  intros H. unfold run_mass_balance, bind. rewrite H.
  destruct unfulfilled as [u|]; [|reflexivity].
  cbn [unfulfilled_demand read_local]. unfold ret.
  destruct (u >? 0); reflexivity.
Qed.

(** C6: the driver steps the weeks 1, 2, ..., [n_weeks - 1] in this order and
    never week 0; its loops do, world for world and exception for exception,
    what the chain simulator of the specification does: each week starts with
    a release of 0, the reservoirs are stepped in list order, and each
    receives as upstream release the release returned by the one before it
    for the same week.  So in a chain of two, the second reservoir is stepped
    with the release that the first one returned for that week.  The release
    of the last reservoir goes nowhere: no local of a week reaches the next
    week, and what the driver does after the loops does not depend on it. *)
Theorem C6_chain_passes_release_downstream :
  (forall (n_weeks : Z) (k : nat) (week : Z),
     range 1 n_weeks !! k = Some week <->
     week = (1 + Z.of_nat k)%Z /\ (week <= n_weeks - 1)%Z)
  /\ (forall (chain : list ref) (n_weeks : Z) (w : world),
        (week_loop (range 1 n_weeks) chain unbound ;; ret tt) w
        = ChainSimulator_run chain n_weeks w)
  /\ (forall (chain : list ref) (n_weeks : Z) (w : world),
        heap (fst (run_mass_balance chain n_weeks w))
        = heap (fst (ChainSimulator_run chain n_weeks w)))
  /\ (forall (first second : ref) (week : Z) (w w1 : world)
             (release1 unfulfilled1 : float),
        mass_balance first 0 week w = (w1, Return (release1, unfulfilled1)) ->
        reservoir_loop [first; second] week
          (mkLocals (Some 0) (Some 0) (Some 0)) w
        = (let* '(release2, unfulfilled2) :=
             mass_balance second release1 week in
           ret (mkLocals (Some release2) (Some unfulfilled2)
                  (Some (0 + unfulfilled1 + unfulfilled2)))) w1)
  /\ (forall (week : Z) (weeks : list Z) (chain : list ref) (l l' : locals)
             (w : world),
        week_loop (week :: weeks) chain l w
        = week_loop (week :: weeks) chain l' w)
  /\ (forall (chain : list ref) (n_weeks : Z) (w w1 : world)
             (release release' unfulfilled total : option float),
        week_loop (range 1 n_weeks) chain unbound w
        = (w1, Return (mkLocals release unfulfilled total)) ->
        run_mass_balance chain n_weeks w
        = (let* _ := ret (mkLocals release' unfulfilled total) in
           let* unfulfilled_demand := read_local unfulfilled in
           if unfulfilled_demand >? 0
           then print (TotalUnfulfilledDemand unfulfilled_demand)
           else ret tt) w1).
Proof.
  split; [|split; [|split; [|split; [|split]]]].
  - intros n_weeks k week. rewrite range_lookup. lia.
  - intros chain n_weeks w. unfold ChainSimulator_run.
    destruct (Z.le_gt_cases n_weeks 1) as [Hle|Hgt].
    + rewrite range_empty by lia. replace (Z.to_nat (n_weeks - 1)) with O by lia.
      reflexivity.
    + rewrite <- week_loop_chain with (l := unbound).
      replace (1 + Z.of_nat (Z.to_nat (n_weeks - 1)))%Z with n_weeks by lia.
      reflexivity.
  - intros chain n_weeks w.
    assert (H : (week_loop (range 1 n_weeks) chain unbound ;; ret tt) w
                = ChainSimulator_run chain n_weeks w).
    { unfold ChainSimulator_run.
      destruct (Z.le_gt_cases n_weeks 1) as [Hle|Hgt].
      - rewrite range_empty by lia.
        replace (Z.to_nat (n_weeks - 1)) with O by lia. reflexivity.
      - rewrite <- week_loop_chain with (l := unbound).
        replace (1 + Z.of_nat (Z.to_nat (n_weeks - 1)))%Z with n_weeks by lia.
        reflexivity. }
    rewrite <- H. unfold run_mass_balance, bind, ret.
    destruct (week_loop (range 1 n_weeks) chain unbound w) as [w1 [l1|e1]];
      [|reflexivity].
    destruct (unfulfilled_demand l1) as [u|]; [|reflexivity].
    cbn [read_local]. unfold ret.
    destruct (u >? 0); reflexivity.
  - intros first second week w w1 release1 unfulfilled1 H.
    cbn [reservoir_loop release total_unfulfilled_demand read_local].
    unfold bind, ret. rewrite H.
    destruct (mass_balance second release1 week w1) as [w2 [[rel2 unf2]|e]];
      reflexivity.
  - reflexivity.
  - intros chain n_weeks w w1 release release' unfulfilled total H.
    rewrite (run_mass_balance_after_loops _ _ _ _ _ _ _ H).
    unfold bind, ret. destruct unfulfilled as [u|]; [|reflexivity].
    cbn [read_local]. unfold ret, print. destruct (u >? 0); reflexivity.
Qed.

Lemma C6_chain_passes_release_downstream_witness :
  let w := two_reservoirs (two_week_reservoir 400 200)
             (two_week_reservoir 0 200) in
  mass_balance 0%nat 0 1 w
  = (stored_volume_written w 0%nat 1 1000, Return (155, 0))
  /\ reservoir_loop [0%nat; 1%nat] 1 (mkLocals (Some 0) (Some 0) (Some 0)) w
     = (let* '(release2, unfulfilled2) := mass_balance 1%nat 155 1 in
        ret (mkLocals (Some release2) (Some unfulfilled2)
               (Some (0 + 0 + unfulfilled2))))
         (stored_volume_written w 0%nat 1 1000).
Proof.
  cbn zeta. split; [vm_compute; reflexivity|].
  apply (proj1 (proj2 (proj2 (proj2 C6_chain_passes_release_downstream)))
           0%nat 1%nat 1%Z
           (two_reservoirs (two_week_reservoir 400 200)
              (two_week_reservoir 0 200))).
  vm_compute. reflexivity.
Defined.

(** C5, where the code departs from it: in a chain of two reservoirs that
    fall short by 1045 and by 2045 in the last week, the week's total is 3090
    but the driver prints 2045, the unfulfilled demand of the last reservoir;
    and when only the upstream reservoir falls short, by 1045, the total is
    1045 but the driver prints nothing. *)
Theorem C5_driver_reports_last_reservoir_only :
  (let w := two_reservoirs (two_week_reservoir 0 2000)
              (two_week_reservoir 0 3000) in
   snd (mass_balance 0%nat 0 1 w) = Return (0, 1045)
   /\ snd (week_loop (range 1 2) [0%nat; 1%nat] unbound w)
      = Return (mkLocals (Some 0) (Some 2045) (Some 3090))
   /\ snd (ChainSimulator_week [0%nat; 1%nat] 1 0 0 w) = Return 3090
   /\ snd (run_mass_balance [0%nat; 1%nat] 2 w) = Return tt
   /\ stdout (fst (run_mass_balance [0%nat; 1%nat] 2 w))
      = [TotalUnfulfilledDemand 2045])
  /\ (let w := two_reservoirs (two_week_reservoir 0 2000)
                 (two_week_reservoir 0 200) in
      snd (mass_balance 0%nat 0 1 w) = Return (0, 1045)
      /\ snd (week_loop (range 1 2) [0%nat; 1%nat] unbound w)
         = Return (mkLocals (Some 0) (Some 0) (Some 1045))
      /\ snd (ChainSimulator_week [0%nat; 1%nat] 1 0 0 w) = Return 1045
      /\ snd (run_mass_balance [0%nat; 1%nat] 2 w) = Return tt
      /\ stdout (fst (run_mass_balance [0%nat; 1%nat] 2 w)) = []).
Proof. split; cbn zeta; repeat split; vm_compute; reflexivity. Qed.

(** C10: with [n_weeks <= 1] the driver is not a no-op.  Whatever the
    reservoirs, the week loop runs no iteration, [unfulfilled_demand] is still
    unbound when the statement after the loop reads it, and the call raises
    [UnboundLocalError], a [NameError], having changed nothing. *)
Theorem C10_no_week_raises_NameError (reservoirs : list ref) (n_weeks : Z)
    (w : world) :
  (n_weeks <= 1)%Z ->
  range 1 n_weeks = []
  /\ week_loop (range 1 n_weeks) reservoirs unbound w = (w, Return unbound)
  /\ unfulfilled_demand unbound = None
  /\ run_mass_balance reservoirs n_weeks w = (w, Raise UnboundLocalError)
  /\ is_NameError UnboundLocalError = true
  /\ run_mass_balance reservoirs n_weeks w <> (w, Return tt).
Proof.
  intros H. assert (Hrange : range 1 n_weeks = []) by (apply range_empty; lia).
  unfold run_mass_balance. rewrite Hrange.
  repeat split; discriminate.
Qed.

Lemma C10_no_week_raises_NameError_witness :
  run_mass_balance [0%nat] 1 test_world = (test_world, Raise UnboundLocalError)
  /\ run_mass_balance [] 0 test_world = (test_world, Raise UnboundLocalError).
Proof.
  split.
  - apply (C10_no_week_raises_NameError [0%nat] 1 test_world). lia.
  - apply (C10_no_week_raises_NameError [] 0 test_world). lia.
Defined.

(** * Further properties of the class [Reservoir] *)

(** ** The constructor *)

(** [__init__] raises, and then [IndexError], exactly when the curve has no
    breakpoint.  Otherwise the reservoir holds the arguments as they were
    given, its capacity is the storage of the last breakpoint, and there is
    one stored volume per demand, each equal to the capacity: neither the
    order of the curve nor the lengths of the other series are looked at. *)
Theorem X1_init_fails_only_on_empty_curve (curve : list (float * float))
    (evaporations inflows demands : list float) :
  (Reservoir_init curve evaporations inflows demands = Raise IndexError
   <-> curve = [])
  /\ (forall e : exn,
        Reservoir_init curve evaporations inflows demands = Raise e ->
        e = IndexError)
  /\ (forall (cap area : float),
        last curve = Some (cap, area) ->
        Reservoir_init curve evaporations inflows demands
        = Return (mkReservoir cap curve evaporations inflows demands
                    (replicate (length demands) cap))).
Proof.
  split; [|split].
  - unfold Reservoir_init. destruct (last curve) as [[cap area]|] eqn:Hlast.
    + split; [discriminate|]. intros ->. discriminate.
    + apply last_None in Hlast. tauto.
  - intros e. unfold Reservoir_init.
    destruct (last curve) as [[cap area]|]; [discriminate|]. congruence.
  - intros cap area Hlast.
    destruct (Reservoir_init curve evaporations inflows demands)
      as [r|e] eqn:H.
    + destruct (Reservoir_init_Return _ _ _ _ _ H) as (area' & Hlast' & ->).
      rewrite Hlast in Hlast'. injection Hlast' as <- <-. reflexivity.
    + unfold Reservoir_init in H. rewrite Hlast in H. discriminate.
Qed.

Lemma X1_init_fails_only_on_empty_curve_witness :
  Reservoir_init test_storage_area_curve [0.5 / 10] [] [200; 200]
  = Return (mkReservoir 1000 test_storage_area_curve [0.5 / 10] [] [200; 200]
              [1000; 1000]).
Proof.
  apply (proj2 (proj2 (X1_init_fails_only_on_empty_curve
           test_storage_area_curve [0.5 / 10] [] [200; 200])) 1000 900).
  reflexivity.
Defined.

(** ** The area lookup *)

Lemma calculate_area_loop_no_greater (v : float) (prev : float * float)
    (rest : list (float * float)) (a : option float) :
  Forall (fun p => (v <? fst p) = false) rest ->
  calculate_area_loop v prev rest a =
  match last rest, a with
  | Some (_, a'), _ => Return a'
  | None, Some a' => Return a'
  | None, None => Raise UnboundLocalError
  end.
Proof.
  intros H. apply calculate_area_loop_last.
  induction H as [|[s a'] rest Hs _ IH]; [reflexivity|].
  cbn in *. rewrite Hs, IH. reflexivity.
Qed.

(** X2: a NaN stored volume is not rejected.  Every comparison with it is
    false, so on a curve of two breakpoints or more [calculate_area] neither
    raises nor interpolates: it returns the area of the last breakpoint, the
    area at capacity, and prints nothing. *)
Theorem X2_area_of_nan_is_area_at_capacity (self : ref) (v : float) (w : world)
    (first : float * float) (rest : list (float * float)) (s a : float) :
  is_nan v = true ->
  storage_area_curve (heap w self) = first :: rest ->
  last rest = Some (s, a) ->
  calculate_area self v w = (w, Return a).
Proof.
  intros Hnan Hcurve Hlast. rewrite calculate_area_unfold, Hcurve.
  replace (v >? capacity (heap w self)) with false by (symmetry; float_order).
  rewrite calculate_area_loop_no_greater, Hlast; [reflexivity|].
  apply Forall_forall. intros [s' a'] _. cbn. float_order.
Qed.

Lemma X2_area_of_nan_is_area_at_capacity_witness :
  calculate_area 0%nat nan test_world = (test_world, Return 900).
Proof.
  apply (X2_area_of_nan_is_area_at_capacity 0%nat nan test_world (0, 0)
           [(500, 400); (800, 600); (1000, 900)] 1000 900); reflexivity.
Defined.

(** In an increasing curve no storage is greater than the last one. *)
Lemma increasing_from_le_last (s : float) (rest : list (float * float))
    (c a x y : float) :
  increasing_from s rest = true ->
  last rest = Some (c, a) ->
  (x, y) ∈ rest ->
  (x <=? c) = true.
Proof.
  revert s. induction rest as [|[s' a'] rest IH]; intros s Hinc Hlast Hin.
  - inversion Hin.
  - cbn in Hinc. apply andb_prop in Hinc as [Hs Hrest].
    destruct rest as [|q rest].
    + cbn in Hlast. injection Hlast as <- <-.
      apply list_elem_of_singleton in Hin. injection Hin as -> ->.
      float_order.
    + rewrite last_cons_cons in Hlast.
      apply elem_of_cons in Hin as [[= -> ->]|Hin].
      * apply ltb_leb. eapply increasing_from_lt; [exact Hrest|].
        eapply last_Some_elem_of, Hlast.
      * apply (IH s'); assumption.
Qed.

(** X3: on a well-formed curve whose last storage is the capacity, the area
    at capacity is the area of the last breakpoint, returned as it is. *)
Theorem X3_area_at_capacity_is_last_area (self : ref) (w : world)
    (area : float) :
  well_formed_curve (storage_area_curve (heap w self)) = true ->
  last (storage_area_curve (heap w self))
  = Some (capacity (heap w self), area) ->
  calculate_area self (capacity (heap w self)) w = (w, Return area).
Proof.
  intros Hwf Hlast. rewrite calculate_area_unfold.
  destruct (storage_area_curve (heap w self)) as [|[s0 a0] [|[s1 a1] rest]]
    eqn:Hcurve; try discriminate.
  destruct (well_formed_curve_last _ _ _ _ _ _ _ Hwf Hlast)
    as (H0 & H1 & Hcap & Hpos).
  replace (capacity (heap w self) >? capacity (heap w self)) with false
    by (symmetry; float_order).
  rewrite last_cons_cons in Hlast.
  rewrite calculate_area_loop_no_greater, Hlast; [reflexivity|].
  cbn [well_formed_curve increasing_from] in Hwf.
  apply andb_prop in Hwf as [_ Hwf].
  change (increasing_from s0 ((s1, a1) :: rest) = true) in Hwf.
  apply Forall_forall. intros [s a] Hin. cbn.
  pose proof (increasing_from_le_last _ _ _ _ _ _ Hwf Hlast Hin) as Hle.
  float_order.
Qed.

Lemma X3_area_at_capacity_is_last_area_witness :
  calculate_area 0%nat 1000 test_world = (test_world, Return 900).
Proof.
  apply (X3_area_at_capacity_is_last_area 0%nat test_world 900); reflexivity.
Defined.

Lemma calculate_area_loop_first_greater (v : float) (first : float * float)
    (skipped after : list (float * float)) (s a sm am : float)
    (bound : option float) :
  Forall (fun p => (v <? fst p) = false) skipped ->
  (v <? s) = true ->
  last (first :: skipped) = Some (sm, am) ->
  calculate_area_loop v first (skipped ++ (s, a) :: after) bound
  = Return (am + (v - sm) / (s - sm) * (a - am)).
Proof.
  revert first bound.
  induction skipped as [|[s' a'] skipped IH]; intros first bound Hskip Hs Hlast.
  - cbn in Hlast. injection Hlast as ->. cbn. rewrite Hs. reflexivity.
  - apply Forall_cons in Hskip as [Hs' Hskip]. cbn in Hs'.
    cbn [app calculate_area_loop]. rewrite Hs'.
    rewrite last_cons_cons in Hlast. apply IH; assumption.
Qed.

(** X4: the segment that [calculate_area] interpolates on.  The loop passes
    over every breakpoint, from the second on, that is not greater than the
    stored volume, and stops at the first greater one: the value returned is
    the line through that breakpoint and the one before it, taken at the
    stored volume.  The storage of the first breakpoint is never compared. *)
Theorem X4_area_interpolates_below_first_greater_breakpoint (self : ref)
    (v : float) (w : world) (first : float * float)
    (skipped after : list (float * float)) (s a sm am : float) :
  storage_area_curve (heap w self) = first :: skipped ++ (s, a) :: after ->
  (v >? capacity (heap w self)) = false ->
  Forall (fun p => (v <? fst p) = false) skipped ->
  (v <? s) = true ->
  last (first :: skipped) = Some (sm, am) ->
  calculate_area self v w
  = (w, Return (am + (v - sm) / (s - sm) * (a - am))).
Proof.
  intros Hcurve Hcap Hskip Hs Hlast.
  rewrite calculate_area_unfold, Hcap, Hcurve.
  rewrite (calculate_area_loop_first_greater v first skipped after s a sm am);
    auto.
Qed.

Lemma X4_area_interpolates_below_first_greater_breakpoint_witness :
  calculate_area 0%nat 870 test_world
  = (test_world, Return (600 + (870 - 800) / (1000 - 800) * (900 - 600))).
Proof.
  apply (X4_area_interpolates_below_first_greater_breakpoint 0%nat 870
           test_world (0, 0) [(500, 400); (800, 600)] [] 1000 900 800 600);
    try reflexivity.
  repeat constructor.
Defined.

(** X5: a curve of one breakpoint passes the constructor, but the loop of
    [calculate_area] then runs no iteration and the final [return a] reads a
    local that was never bound: every stored volume that is not above the
    capacity raises [UnboundLocalError], and so does the empty curve.  With
    two breakpoints or more no such volume raises. *)
Theorem X5_area_needs_two_breakpoints (self : ref) (v : float) (w : world) :
  (v >? capacity (heap w self)) = false ->
  ((length (storage_area_curve (heap w self)) <= 1)%nat ->
   calculate_area self v w = (w, Raise UnboundLocalError))
  /\ ((exists area, calculate_area self v w = (w, Return area)) <->
      (2 <= length (storage_area_curve (heap w self)))%nat).
Proof.
  intros Hcap. rewrite calculate_area_unfold, Hcap.
  destruct (storage_area_curve (heap w self)) as [|first [|second rest]];
    cbn [length].
  - split; [reflexivity|]. split; [intros [area H]; discriminate|lia].
  - split; [reflexivity|]. split; [intros [area H]; discriminate|lia].
  - split; [lia|]. split; [lia|]. intros _.
    destruct (calculate_area_loop_total v first second rest) as [area ->].
    eauto.
Qed.

Lemma X5_area_needs_two_breakpoints_witness :
  calculate_area 0%nat 5
    (mkWorld (fun _ => mkReservoir 10 [(10, 7)] [] [] [] []) [])
  = (mkWorld (fun _ => mkReservoir 10 [(10, 7)] [] [] [] []) [],
     Raise UnboundLocalError).
Proof.
  apply (proj1 (X5_area_needs_two_breakpoints 0%nat 5
           (mkWorld (fun _ => mkReservoir 10 [(10, 7)] [] [] [] []) [])
           eq_refl)).
  cbn. lia.
Defined.

(** ** When the step succeeds and how it fails *)

Lemma calculate_area_returns (self : ref) (v : float) (w : world) :
  (exists area, calculate_area self v w = (w, Return area)) <->
  (v >? capacity (heap w self)) = false
  /\ (2 <= length (storage_area_curve (heap w self)))%nat.
Proof.
  rewrite calculate_area_unfold.
  destruct (v >? capacity (heap w self)).
  { split; [intros [area H]; discriminate|intros [H _]; discriminate]. }
  destruct (storage_area_curve (heap w self)) as [|first [|second rest]];
    cbn [length].
  - split; [intros [area H]; discriminate|lia].
  - split; [intros [area H]; discriminate|lia].
  - split; [intros _; split; [reflexivity|lia]|]. intros _.
    destruct (calculate_area_loop_total v first second rest) as [area ->].
    eauto.
Qed.

(** X6: [mass_balance] returns exactly when the week is at least 1 and below
    the length of the three series and of the stored volumes, the curve has
    two breakpoints or more, and the stored volume of the week before is not
    greater than the capacity.  Nothing else is required of the inputs: any
    upstream release will do. *)
Theorem X6_mass_balance_returns_iff (self : ref) (upstream_flow : float)
    (week : Z) (w : world) :
  (exists w' result,
     mass_balance self upstream_flow week w = (w', Return result))
  <->
  (1 <= week)%Z
  /\ (week < Z.of_nat (length (evaporation_series (heap w self))))%Z
  /\ (week < Z.of_nat (length (inflow_series (heap w self))))%Z
  /\ (week < Z.of_nat (length (demand_series (heap w self))))%Z
  /\ (week < Z.of_nat (length (stored_volume (heap w self))))%Z
  /\ (2 <= length (storage_area_curve (heap w self)))%nat
  /\ (exists previous,
        stored_volume (heap w self) !! Z.to_nat (week - 1) = Some previous
        /\ (previous >? capacity (heap w self)) = false).
Proof.
  split.
  - intros (w' & [release unfulfilled] & H).
    apply mass_balance_Return_inv in H.
    destruct H as (rate & previous & area & inflow & demand & v & Hweek & Hrate
                   & Hprevious & Harea & Hinflow & Hdemand & Hn & _ & _).
    pose proof (lookup_lt_Some _ _ _ Hrate).
    pose proof (lookup_lt_Some _ _ _ Hinflow).
    pose proof (lookup_lt_Some _ _ _ Hdemand).
    assert (Hret : exists area, calculate_area self previous w
                                = (w, Return area)) by eauto.
    apply calculate_area_returns in Hret as [Hcap Hcurve].
    repeat (split; [lia|]). eauto.
  - intros (Hweek & Hevap & Hinflow & Hdemand & Hsv & Hcurve
            & previous & Hprevious & Hcap).
    destruct (proj2 (calculate_area_returns self previous w)
                (conj Hcap Hcurve)) as [area Harea].
    destruct (lookup_lt_is_Some_2 (evaporation_series (heap w self))
                (Z.to_nat week)) as [rate Hrate]; [lia|].
    destruct (lookup_lt_is_Some_2 (inflow_series (heap w self))
                (Z.to_nat week)) as [inflow Hi]; [lia|].
    destruct (lookup_lt_is_Some_2 (demand_series (heap w self))
                (Z.to_nat week)) as [demand Hd]; [lia|].
    rewrite mass_balance_unfold by exact Hweek. cbn zeta.
    rewrite Hrate, Hprevious, Harea, Hi, Hd.
    destruct (clamp _ _) as [[release unfulfilled] v].
    rewrite bool_decide_eq_true_2 by lia. eauto.
Qed.

(** X7: how a step for a week >= 1 fails.  It never touches a reservoir.
    [IndexError] comes from a series or the stored volumes being too short for
    the week, and nothing is printed; [ValueError] from the stored volume of
    the week before being above the capacity, with the message of
    [calculate_area]; [UnboundLocalError] from a curve of fewer than two
    breakpoints, and nothing is printed. *)
Theorem X7_mass_balance_failures (self : ref) (upstream_flow : float)
    (week : Z) (w w' : world) (e : exn) :
  (1 <= week)%Z ->
  mass_balance self upstream_flow week w = (w', Raise e) ->
  heap w' = heap w
  /\ match e with
     | IndexError =>
         w' = w
         /\ (Z.of_nat (length (evaporation_series (heap w self))) <= week
             \/ Z.of_nat (length (inflow_series (heap w self))) <= week
             \/ Z.of_nat (length (demand_series (heap w self))) <= week
             \/ Z.of_nat (length (stored_volume (heap w self))) <= week)%Z
     | ValueError =>
         exists previous,
           stored_volume (heap w self) !! Z.to_nat (week - 1) = Some previous
           /\ (previous >? capacity (heap w self)) = true
           /\ stdout w'
              = stdout w
                ++ [StorageGreaterThanCapacity previous (capacity (heap w self))]
     | UnboundLocalError =>
         w' = w /\ (length (storage_area_curve (heap w self)) <= 1)%nat
     end.
Proof.
  intros Hweek H. split; [eapply mass_balance_Raise_heap, H|].
  rewrite mass_balance_unfold in H by exact Hweek. cbn zeta in H.
  destruct (evaporation_series (heap w self) !! Z.to_nat week)
    as [rate|] eqn:Hrate.
  2: { injection H as <- <-. apply lookup_ge_None in Hrate.
       split; [reflexivity|lia]. }
  destruct (stored_volume (heap w self) !! Z.to_nat (week - 1))
    as [previous|] eqn:Hprevious.
  2: { injection H as <- <-. apply lookup_ge_None in Hprevious.
       split; [reflexivity|lia]. }
  destruct (calculate_area self previous w) as [w1 [area|e']] eqn:Harea.
  - destruct (inflow_series (heap w self) !! Z.to_nat week)
      as [inflow|] eqn:Hinflow.
    2: { injection H as <- <-. apply lookup_ge_None in Hinflow.
         split; [reflexivity|lia]. }
    destruct (demand_series (heap w self) !! Z.to_nat week)
      as [demand|] eqn:Hdemand.
    2: { injection H as <- <-. apply lookup_ge_None in Hdemand.
         split; [reflexivity|lia]. }
    destruct (clamp _ _) as [[release unfulfilled] v].
    destruct (bool_decide _) eqn:Hn; [discriminate|].
    apply bool_decide_eq_false_1 in Hn. injection H as <- <-.
    split; [reflexivity|lia].
  - injection H as <- <-. rewrite calculate_area_unfold in Harea.
    destruct (previous >? capacity (heap w self)) eqn:Hcap.
    + injection Harea as <- <-. exists previous. auto.
    + destruct (storage_area_curve (heap w self)) as [|first [|second rest]].
      * injection Harea as <- <-. split; [reflexivity|cbn; lia].
      * injection Harea as <- <-. split; [reflexivity|cbn; lia].
      * destruct (calculate_area_loop_total previous first second rest)
          as [area Hloop].
        rewrite Hloop in Harea. discriminate.
Qed.

Lemma X7_mass_balance_failures_witness :
  heap test_world = heap test_world
  /\ (test_world = test_world
      /\ (Z.of_nat (length (evaporation_series (heap test_world 0%nat))) <= 3
          \/ Z.of_nat (length (inflow_series (heap test_world 0%nat))) <= 3
          \/ Z.of_nat (length (demand_series (heap test_world 0%nat))) <= 3
          \/ Z.of_nat (length (stored_volume (heap test_world 0%nat))) <= 3)%Z).
Proof.
  apply (X7_mass_balance_failures 0%nat 0 3 test_world test_world IndexError).
  - lia.
  - vm_compute. reflexivity.
Defined.

(** ** What the stored volumes never do *)

Lemma below_capacity_written (w : world) (self : ref) (k : nat) (v : float) :
  below_capacity (heap w self) ->
  (v >? capacity (heap w self)) = false ->
  below_capacity (heap (stored_volume_written w self k v) self).
Proof.
  intros Hinv Hv. unfold below_capacity, stored_volume_written.
  cbn [heap]. rewrite heap_update_same. cbn. apply Forall_insert; assumption.
Qed.

Lemma clamp_below_capacity (cap candidate release unfulfilled v : float) :
  (cap <? 0) = false ->
  clamp cap candidate = (release, unfulfilled, v) ->
  (v >? cap) = false.
Proof.
  intros Hcap Hclamp.
  destruct (clamp_cases cap candidate)
    as [(Hgt & E)|[(Hgt & Hlt & E)|(Hgt & Hlt & E)]];
    rewrite E in Hclamp; injection Hclamp as <- <- <-.
  - float_order.
  - exact Hcap.
  - exact Hgt.
Qed.

(** X8: no stored volume is ever greater than the capacity.  The constructor
    builds a reservoir for which this holds, whatever the curve, and when the
    capacity is not negative every call of [mass_balance], successful or not
    and whatever its inputs, NaN included, keeps it.  Such a reservoir never
    makes [mass_balance] raise [ValueError] for a week >= 1: the area lookup
    of the step is always within the curve. *)
Theorem X8_stored_volume_never_above_capacity :
  (forall (curve : list (float * float)) (evaporations inflows demands : list float)
          (r : Reservoir),
     Reservoir_init curve evaporations inflows demands = Return r ->
     below_capacity r)
  /\ (forall (self : ref) (upstream_flow : float) (week : Z) (w w' : world)
             (o : outcome (float * float)),
        (capacity (heap w self) <? 0) = false ->
        below_capacity (heap w self) ->
        mass_balance self upstream_flow week w = (w', o) ->
        below_capacity (heap w' self))
  /\ (forall (self : ref) (upstream_flow : float) (week : Z) (w w' : world)
             (e : exn),
        below_capacity (heap w self) ->
        (1 <= week)%Z ->
        mass_balance self upstream_flow week w = (w', Raise e) ->
        e <> ValueError).
Proof.
  split; [|split].
  - intros curve evaporations inflows demands r H.
    destruct (Reservoir_init_Return _ _ _ _ _ H) as (area & _ & Hr).
    assert (Hsv : stored_volume r = replicate (length demands) (capacity r))
      by (rewrite Hr at 1; reflexivity).
    unfold below_capacity. rewrite Hsv.
    apply Forall_replicate. float_order.
  - intros self upstream_flow week w w' [[release unfulfilled]|e] Hcap Hinv H.
    + apply mass_balance_Return_inv in H.
      destruct H as (rate & previous & area & inflow & demand & v & _ & _ & _
                     & _ & _ & _ & _ & Hclamp & ->).
      apply below_capacity_written; [exact Hinv|].
      eapply clamp_below_capacity; eassumption.
    + apply mass_balance_Raise_heap in H. rewrite H. exact Hinv.
  - intros self upstream_flow week w w' e Hinv Hweek H ->.
    rewrite mass_balance_unfold in H by exact Hweek. cbn zeta in H.
    destruct (evaporation_series (heap w self) !! Z.to_nat week);
      [|discriminate].
    destruct (stored_volume (heap w self) !! Z.to_nat (week - 1))
      as [previous|] eqn:Hprevious; [|discriminate].
    unfold below_capacity in Hinv. rewrite Forall_lookup in Hinv.
    specialize (Hinv _ _ Hprevious). cbn beta in Hinv.
    rewrite calculate_area_unfold, Hinv in H.
    destruct (storage_area_curve (heap w self)) as [|first [|second rest]];
      [discriminate|discriminate|].
    destruct (calculate_area_loop_total previous first second rest)
      as [area Hloop].
    rewrite Hloop in H.
    destruct (inflow_series (heap w self) !! Z.to_nat week); [|discriminate].
    destruct (demand_series (heap w self) !! Z.to_nat week); [|discriminate].
    destruct (clamp _ _) as [[release unfulfilled] v].
    destruct (bool_decide _); discriminate.
Qed.

Lemma X8_stored_volume_never_above_capacity_witness :
  below_capacity (heap (stored_volume_written test_world 0%nat 1 nan) 0%nat).
Proof.
  apply (proj1 (proj2 X8_stored_volume_never_above_capacity)
           0%nat nan 1%Z test_world
           (stored_volume_written test_world 0%nat 1 nan) (Return (0, 0))).
  - reflexivity.
  - repeat constructor.
  - vm_compute. reflexivity.
Defined.

Lemma opp_of_negative (x : float) : (x <? 0) = true -> (0 <? - x) = true.
Proof.
  intros H. apply ltb_key in H as (Hx & _ & H).
  apply ltb_key. rewrite !is_nan_spec in *. unfold fkey in *.
  rewrite opp_spec. change (Prim2SF 0) with (S754_zero false) in *.
  destruct (Prim2SF x) as [s|s| |s m e]; try discriminate;
    cbn in H |- *; try destruct s; cbn in H |- *; repeat split; lia.
Qed.

(** X9: the unfulfilled demand that a step returns is never negative and
    never NaN.  It is greater than zero only when the candidate storage was
    below zero, and then the step returns no release and leaves the reservoir
    empty for the week. *)
Theorem X9_unfulfilled_demand_is_not_negative (self : ref)
    (upstream_flow : float) (week : Z) (w w' : world)
    (release unfulfilled_demand : float) :
  mass_balance self upstream_flow week w
  = (w', Return (release, unfulfilled_demand)) ->
  (0 <=? unfulfilled_demand) = true
  /\ ((0 <? unfulfilled_demand) = true ->
      release = 0
      /\ stored_volume (heap w' self) !! Z.to_nat week = Some 0).
Proof.
  intros H. apply mass_balance_Return_inv in H.
  destruct H as (rate & previous & area & inflow & demand & v & _ & _ & _
                 & _ & _ & _ & Hn & Hclamp & ->).
  destruct (clamp_cases (capacity (heap w self))
              (previous + upstream_flow + inflow - rate * area - demand))
    as [(Hgt & E)|[(Hgt & Hlt & E)|(Hgt & Hlt & E)]];
    rewrite E in Hclamp; injection Hclamp as <- <- <-.
  - split; [reflexivity|discriminate].
  - split; [apply ltb_leb, opp_of_negative, Hlt|]. intros _.
    split; [reflexivity|]. cbn. rewrite heap_update_same. cbn.
    apply list_lookup_insert_eq, Hn.
  - split; [reflexivity|discriminate].
Qed.

Lemma X9_unfulfilled_demand_is_not_negative_witness :
  (0 <=? 1045) = true
  /\ ((0 <? 1045) = true ->
      0 = 0
      /\ stored_volume
           (heap (stored_volume_written
                    (two_reservoirs (two_week_reservoir 0 2000)
                       (two_week_reservoir 0 200)) 0%nat 1 0) 0%nat)
           !! Z.to_nat 1 = Some 0).
Proof.
  apply (X9_unfulfilled_demand_is_not_negative 0%nat 0 1%Z
           (two_reservoirs (two_week_reservoir 0 2000)
              (two_week_reservoir 0 200))).
  vm_compute. reflexivity.
Defined.

(** ** How steps compose *)

(** What a step returns and writes depends on its reservoir only, and there
    on everything but the stored volumes other than that of the week before. *)
Lemma mass_balance_agree (touched : nat -> Prop) (self : ref)
    (upstream_flow : float) (week : Z) (w w2 w' : world)
    (result : float * float) :
  differs_only_on touched (heap w self) (heap w2 self) ->
  ~ touched (Z.to_nat (week - 1)) ->
  mass_balance self upstream_flow week w = (w', Return result) ->
  exists v,
    w' = stored_volume_written w self (Z.to_nat week) v
    /\ mass_balance self upstream_flow week w2
       = (stored_volume_written w2 self (Z.to_nat week) v, Return result).
Proof.
  intros (Hcap & Hcurve & Hevap & Hinflow & Hdemand & Hlen & Hsv) Hweek1 H.
  destruct result as [release unfulfilled].
  apply mass_balance_Return_inv in H.
  destruct H as (rate & previous & area & inflow & demand & v & Hweek & Hrate
                 & Hprevious & Harea & Hi & Hd & Hn & Hclamp & ->).
  exists v. split; [reflexivity|].
  rewrite mass_balance_unfold by exact Hweek. cbn zeta.
  rewrite Hevap, Hrate, (Hsv _ Hweek1), Hprevious.
  assert (Harea2 : calculate_area self previous w2 = (w2, Return area)).
  { rewrite calculate_area_unfold in Harea |- *. rewrite Hcap, Hcurve.
    destruct (previous >? capacity (heap w self)); [discriminate|].
    destruct (storage_area_curve (heap w self)); [discriminate|].
    injection Harea as ->. reflexivity. }
  rewrite Harea2, Hinflow, Hi, Hdemand, Hd, Hcap, Hclamp, Hlen.
  rewrite bool_decide_eq_true_2 by exact Hn. reflexivity.
Qed.

(** X10: stepping a reservoir again for the same week with the same upstream
    release changes nothing more.  The second call reads what the first one
    read, returns what it returned and writes the same value at the same
    index. *)
Theorem X10_mass_balance_repeated (self : ref) (upstream_flow : float)
    (week : Z) (w w1 : world) (result : float * float) :
  mass_balance self upstream_flow week w = (w1, Return result) ->
  exists w2,
    mass_balance self upstream_flow week w1 = (w2, Return result)
    /\ (forall other : ref, heap w2 other = heap w1 other)
    /\ stdout w2 = stdout w1.
Proof.
  intros H.
  assert (Hweek : (1 <= week)%Z /\
                  exists v, w1 = stored_volume_written w self (Z.to_nat week) v).
  { destruct result. apply mass_balance_Return_inv in H.
    destruct H as (? & ? & ? & ? & ? & v & Hweek & _ & _ & _ & _ & _ & _ & _
                   & ->). eauto. }
  destruct Hweek as (Hweek & v & ->).
  destruct (mass_balance_agree (fun k => k = Z.to_nat week) self upstream_flow
              week w (stored_volume_written w self (Z.to_nat week) v)
              (stored_volume_written w self (Z.to_nat week) v) result)
    as (v' & Hv & H2).
  - cbn [stored_volume_written heap]. rewrite heap_update_same.
    repeat split; cbn.
    + apply length_insert.
    + intros k Hk. apply list_lookup_insert_ne. congruence.
  - lia.
  - exact H.
  - eexists. split; [exact H2|]. split; [|reflexivity].
    assert (Hvv : v' = v).
    { apply (f_equal (fun x => stored_volume (heap x self) !! Z.to_nat week))
        in Hv.
      destruct result. apply mass_balance_Return_inv in H.
      destruct H as (? & ? & ? & ? & ? & ? & _ & _ & _ & _ & _ & _ & Hn & _).
      cbn in Hv. rewrite !heap_update_same in Hv. cbn in Hv.
      rewrite !list_lookup_insert_eq in Hv by exact Hn. congruence. }
    subst v'. intros other.
    cbn [stored_volume_written heap]. unfold heap_update.
    destruct (Nat.eqb_spec other self) as [->|Hne]; [|reflexivity].
    rewrite Nat.eqb_refl. unfold set_stored_volume. cbn.
    rewrite list_insert_insert_eq. reflexivity.
Qed.

Lemma X10_mass_balance_repeated_witness :
  exists w2,
    mass_balance 0%nat 100 1 (stored_volume_written test_world 0%nat 1 870)
    = (w2, Return (0, 0))
    /\ (forall other : ref,
          heap w2 other
          = heap (stored_volume_written test_world 0%nat 1 870) other)
    /\ stdout w2 = stdout (stored_volume_written test_world 0%nat 1 870).
Proof.
  apply (X10_mass_balance_repeated 0%nat 100 1%Z test_world).
  vm_compute. reflexivity.
Defined.

Lemma differs_only_on_refl (r : Reservoir) : differs_only_on (fun _ => False) r r.
Proof. repeat split. Qed.

(** X11: steps of two different reservoirs do not interfere.  Taken in the
    other order, each returns what it returned and the reservoirs end up the
    same: within a week the order of a chain matters through the release that
    is handed down, and through nothing else. *)
Theorem X11_steps_of_distinct_reservoirs_commute (a b : ref)
    (upstream_a upstream_b : float) (week_a week_b : Z) (w w1 w2 : world)
    (result_a result_b : float * float) :
  a <> b ->
  mass_balance a upstream_a week_a w = (w1, Return result_a) ->
  mass_balance b upstream_b week_b w1 = (w2, Return result_b) ->
  exists w1' w2',
    mass_balance b upstream_b week_b w = (w1', Return result_b)
    /\ mass_balance a upstream_a week_a w1' = (w2', Return result_a)
    /\ (forall other : ref, heap w2' other = heap w2 other)
    /\ stdout w2' = stdout w2.
Proof.
  intros Hab Ha Hb.
  destruct (mass_balance_agree (fun _ => False) a upstream_a week_a w w w1
              result_a (differs_only_on_refl _) (fun F => F) Ha)
    as (va & -> & _).
  destruct (mass_balance_agree (fun _ => False) b upstream_b week_b
              (stored_volume_written w a (Z.to_nat week_a) va) w w2 result_b)
    as (vb & -> & Hb').
  { cbn [stored_volume_written heap]. rewrite heap_update_other by congruence.
    apply differs_only_on_refl. }
  { tauto. }
  { exact Hb. }
  destruct (mass_balance_agree (fun _ => False) a upstream_a week_a w
              (stored_volume_written w b (Z.to_nat week_b) vb)
              (stored_volume_written w a (Z.to_nat week_a) va) result_a)
    as (va' & Hva & Ha').
  { cbn [stored_volume_written heap]. rewrite heap_update_other by congruence.
    apply differs_only_on_refl. }
  { tauto. }
  { exact Ha. }
  assert (va' = va) as ->.
  { destruct result_a. apply mass_balance_Return_inv in Ha.
    destruct Ha as (? & ? & ? & ? & ? & ? & _ & _ & _ & _ & _ & _ & Hn & _).
    apply (f_equal (fun x => stored_volume (heap x a) !! Z.to_nat week_a))
      in Hva.
    cbn in Hva. rewrite !heap_update_same in Hva. cbn in Hva.
    rewrite !list_lookup_insert_eq in Hva by exact Hn. congruence. }
  eexists _, _. split; [exact Hb'|]. split; [exact Ha'|].
  split; [|reflexivity].
  intros other. cbn [stored_volume_written heap]. unfold heap_update.
  destruct (Nat.eqb_spec other a) as [Hoa|Hoa];
    destruct (Nat.eqb_spec other b) as [Hob|Hob];
    try congruence; subst;
    repeat match goal with
    | |- context [Nat.eqb ?x ?y] => destruct (Nat.eqb_spec x y)
    end;
    try congruence; reflexivity.
Qed.

Lemma X11_steps_of_distinct_reservoirs_commute_witness :
  let w := two_reservoirs (two_week_reservoir 400 200)
             (two_week_reservoir 0 200) in
  exists w1' w2',
    mass_balance 1%nat 155 1 w = (w1', Return (0, 0))
    /\ mass_balance 0%nat 0 1 w1' = (w2', Return (155, 0))
    /\ (forall other : ref,
          heap w2' other
          = heap (stored_volume_written
                    (stored_volume_written w 0%nat 1 1000) 1%nat 1 910) other)
    /\ stdout w2'
       = stdout (stored_volume_written
                   (stored_volume_written w 0%nat 1 1000) 1%nat 1 910).
Proof.
  cbn zeta.
  apply (X11_steps_of_distinct_reservoirs_commute 0%nat 1%nat 0 155 1%Z 1%Z
           (two_reservoirs (two_week_reservoir 400 200)
              (two_week_reservoir 0 200))
           (stored_volume_written
              (two_reservoirs (two_week_reservoir 400 200)
                 (two_week_reservoir 0 200)) 0%nat 1 1000)).
  - lia.
  - vm_compute. reflexivity.
  - vm_compute. reflexivity.
Defined.

(** * Further properties of the driver *)

(** A relation between worlds that every step of the chain satisfies is
    satisfied by the loops. *)
Section LoopRelation.

Variable R : world -> world -> Prop.
Variable stepped : ref -> Z -> Prop.
Hypothesis R_refl : forall w, R w w.
Hypothesis R_trans : forall w1 w2 w3, R w1 w2 -> R w2 w3 -> R w1 w3.
Hypothesis R_step :
  forall (self : ref) (upstream : float) (week : Z) (w w' : world)
         (o : outcome (float * float)),
    stepped self week ->
    mass_balance self upstream week w = (w', o) -> R w w'.

Lemma reservoir_loop_related (reservoirs : list ref) (week : Z) (l : locals)
    (w w' : world) (o : outcome locals) :
  (forall self, self ∈ reservoirs -> stepped self week) ->
  reservoir_loop reservoirs week l w = (w', o) -> R w w'.
Proof.
  revert l w. induction reservoirs as [|reservoir rest IH]; intros l w Hin H.
  - injection H as <- _. apply R_refl.
  - cbn [reservoir_loop] in H. unfold bind in H.
    destruct (read_local (release l) w) as [w0 [upstream|e]] eqn:Hread.
    2: { destruct (release l); [discriminate|].
         injection Hread as <- _. injection H as <- _. apply R_refl. }
    assert (w0 = w) as ->.
    { destruct (release l); [|discriminate]. injection Hread as <- _.
      reflexivity. }
    destruct (mass_balance reservoir upstream week w)
      as [w1 [[rel unf]|e]] eqn:Hstep.
    2: { injection H as <- _. eapply R_step; [|exact Hstep].
         apply Hin. left. }
    assert (Hw1 : R w w1).
    { eapply R_step; [|exact Hstep]. apply Hin. left. }
    destruct (total_unfulfilled_demand l) as [total|]; cbn in H.
    + eapply R_trans; [exact Hw1|]. eapply IH; [|exact H].
      intros self Hself. apply Hin. right. exact Hself.
    + injection H as <- _. exact Hw1.
Qed.

Lemma week_loop_related (weeks : list Z) (reservoirs : list ref) (l : locals)
    (w w' : world) (o : outcome locals) :
  (forall self week, self ∈ reservoirs -> week ∈ weeks -> stepped self week) ->
  week_loop weeks reservoirs l w = (w', o) -> R w w'.
Proof.
  revert l w. induction weeks as [|week weeks IH]; intros l w Hin H.
  - injection H as <- _. apply R_refl.
  - cbn [week_loop] in H. unfold bind in H.
    destruct (reservoir_loop reservoirs week
                (mkLocals (Some 0) (Some 0) (Some 0)) w)
      as [w1 [l1|e]] eqn:Hweek.
    + eapply R_trans.
      * eapply reservoir_loop_related; [|exact Hweek].
        intros self Hself. apply Hin; [exact Hself|left].
      * eapply IH; [|exact H].
        intros self week' Hself Hweek'. apply Hin; [exact Hself|].
        right. exact Hweek'.
    + injection H as <- _. eapply reservoir_loop_related; [|exact Hweek].
      intros self Hself. apply Hin; [exact Hself|left].
Qed.

End LoopRelation.

Lemma differs_only_on_trans (touched : nat -> Prop) (r1 r2 r3 : Reservoir) :
  differs_only_on touched r1 r2 -> differs_only_on touched r2 r3 ->
  differs_only_on touched r1 r3.
Proof.
  intros (? & ? & ? & ? & ? & ? & H12) (? & ? & ? & ? & ? & ? & H23).
  repeat split; try congruence.
  intros k Hk. rewrite H23, H12 by exact Hk. reflexivity.
Qed.

Lemma elem_of_range (start stop week : Z) :
  week ∈ range start stop -> (start <= week < stop)%Z.
Proof.
  intros H. apply list_elem_of_lookup in H as [k Hk].
  apply range_lookup in Hk. lia.
Qed.

(** X12: what a run can change, however it ends.  In the reservoirs of the
    chain only the stored volumes at the indices 1 to [n_weeks - 1] can
    differ afterwards: the volume at index 0, the volumes from [n_weeks] on,
    the length of the array, the capacity, the curve and the three series are
    as before.  Reservoirs that are not in the chain are as before. *)
Theorem X12_run_changes_only_simulated_weeks (reservoirs : list ref)
    (n_weeks : Z) (w w' : world) (o : outcome unit) :
  run_mass_balance reservoirs n_weeks w = (w', o) ->
  (forall obj : ref,
     differs_only_on (fun k => (1 <= Z.of_nat k < n_weeks)%Z)
       (heap w obj) (heap w' obj))
  /\ (forall obj : ref, obj ∉ reservoirs -> heap w' obj = heap w obj).
Proof.
  intros H.
  set (R := fun w1 w2 : world =>
              (forall obj : ref,
                 differs_only_on (fun k => (1 <= Z.of_nat k < n_weeks)%Z)
                   (heap w1 obj) (heap w2 obj))
              /\ (forall obj : ref, obj ∉ reservoirs ->
                    heap w2 obj = heap w1 obj)).
  assert (Hloop : forall l w1 o1,
            week_loop (range 1 n_weeks) reservoirs l w = (w1, o1) -> R w w1).
  { intros l w1 o1.
    apply (week_loop_related R
             (fun self week => self ∈ reservoirs /\ (1 <= week < n_weeks)%Z)).
    - intros w0. split; [|reflexivity]. intros obj. repeat split.
    - intros w1' w2 w3 [H12 H12'] [H23 H23']. split.
      + intros obj. eapply differs_only_on_trans; [apply H12|apply H23].
      + intros obj Hobj. rewrite H23', H12' by exact Hobj. reflexivity.
    - intros self upstream week w0 w0' [[rel unf]|e] [Hself Hweek] Hstep.
      + apply mass_balance_Return_inv in Hstep.
        destruct Hstep as (? & ? & ? & ? & ? & v & _ & _ & _ & _ & _ & _ & Hn
                           & _ & ->).
        split; intros obj; cbn [stored_volume_written heap].
        * destruct (decide (obj = self)) as [->|Hne].
          -- rewrite heap_update_same. repeat split; cbn.
             ++ apply length_insert.
             ++ intros k Hk. apply list_lookup_insert_ne. lia.
          -- rewrite heap_update_other by exact Hne. repeat split.
        * intros Hobj. apply heap_update_other. congruence.
      + apply mass_balance_Raise_heap in Hstep. split.
        * intros obj. rewrite Hstep. repeat split.
        * intros obj _. rewrite Hstep. reflexivity.
    - intros self week Hself Hweek. split; [exact Hself|].
      apply elem_of_range, Hweek. }
  unfold run_mass_balance, bind in H.
  destruct (week_loop (range 1 n_weeks) reservoirs unbound w)
    as [w1 [l1|e1]] eqn:Hweeks.
  - specialize (Hloop _ _ _ Hweeks).
    destruct (unfulfilled_demand l1) as [u|]; cbn [read_local] in H;
      unfold ret, raise in H.
    + destruct (u >? 0); unfold print in H; injection H as <- _; exact Hloop.
    + injection H as <- _. exact Hloop.
  - injection H as <- _. exact (Hloop _ _ _ Hweeks).
Qed.

Lemma X12_run_changes_only_simulated_weeks_witness :
  heap (fst (run_mass_balance [0%nat] 2
               (two_reservoirs (two_week_reservoir 0 2000)
                  (two_week_reservoir 0 200)))) 1%nat
  = two_week_reservoir 0 200.
Proof.
  refine (proj2 (X12_run_changes_only_simulated_weeks [0%nat] 2
                   (two_reservoirs (two_week_reservoir 0 2000)
                      (two_week_reservoir 0 200)) _ _ _) 1%nat _).
  - apply surjective_pairing.
  - intros H. apply list_elem_of_singleton in H. discriminate.
Defined.

Lemma reservoir_loop_Return_stdout (reservoirs : list ref) (week : Z)
    (l l' : locals) (w w' : world) :
  reservoir_loop reservoirs week l w = (w', Return l') ->
  stdout w' = stdout w.
Proof.
  revert l w. induction reservoirs as [|reservoir rest IH]; intros l w H.
  - injection H as <- _. reflexivity.
  - cbn [reservoir_loop] in H. unfold bind in H.
    destruct (release l) as [upstream|]; [|discriminate].
    cbn [read_local] in H. unfold ret in H.
    destruct (mass_balance reservoir upstream week w)
      as [w1 [[rel unf]|e]] eqn:Hstep; [|discriminate].
    destruct (total_unfulfilled_demand l) as [total|]; [|discriminate].
    cbn in H. apply IH in H. rewrite H.
    apply mass_balance_Return_inv in Hstep.
    destruct Hstep as (? & ? & ? & ? & ? & ? & _ & _ & _ & _ & _ & _ & _ & _
                       & ->).
    reflexivity.
Qed.

Lemma week_loop_Return_stdout (weeks : list Z) (reservoirs : list ref)
    (l l' : locals) (w w' : world) :
  week_loop weeks reservoirs l w = (w', Return l') -> stdout w' = stdout w.
Proof.
  revert l w. induction weeks as [|week weeks IH]; intros l w H.
  - injection H as <- _. reflexivity.
  - cbn [week_loop] in H. unfold bind in H.
    destruct (reservoir_loop reservoirs week
                (mkLocals (Some 0) (Some 0) (Some 0)) w)
      as [w1 [l1|e]] eqn:Hweek; [|discriminate].
    apply IH in H. rewrite H.
    eapply reservoir_loop_Return_stdout, Hweek.
Qed.

(** X13: a run that completes has printed at most one line, the last thing it
    did: the total line, with an amount greater than zero.  No step that
    returns prints anything. *)
Theorem X13_completed_run_prints_at_most_one_line (reservoirs : list ref)
    (n_weeks : Z) (w w' : world) :
  run_mass_balance reservoirs n_weeks w = (w', Return tt) ->
  stdout w' = stdout w
  \/ exists amount,
       (0 <? amount) = true
       /\ stdout w' = stdout w ++ [TotalUnfulfilledDemand amount].
Proof.
  intros H. unfold run_mass_balance, bind in H.
  destruct (week_loop (range 1 n_weeks) reservoirs unbound w)
    as [w1 [l1|e1]] eqn:Hweeks; [|discriminate].
  apply week_loop_Return_stdout in Hweeks.
  destruct (unfulfilled_demand l1) as [u|]; [|discriminate].
  cbn [read_local] in H. unfold ret in H.
  destruct (u >? 0) eqn:Hu.
  - unfold print in H. injection H as <-. right. exists u.
    cbn. rewrite Hweeks. auto.
  - injection H as <-. left. exact Hweeks.
Qed.

Lemma X13_completed_run_prints_at_most_one_line_witness :
  let w := two_reservoirs (two_week_reservoir 0 2000)
             (two_week_reservoir 0 3000) in
  stdout (fst (run_mass_balance [0%nat; 1%nat] 2 w)) = stdout w
  \/ exists amount,
       (0 <? amount) = true
       /\ stdout (fst (run_mass_balance [0%nat; 1%nat] 2 w))
          = stdout w ++ [TotalUnfulfilledDemand amount].
Proof.
  cbn zeta.
  apply (X13_completed_run_prints_at_most_one_line [0%nat; 1%nat] 2).
  vm_compute. reflexivity.
Defined.

(** ** Runs that complete *)

Lemma mass_balance_ready (n_weeks : Z) (self : ref) (upstream_flow : float)
    (week : Z) (w : world) :
  ready n_weeks (heap w self) ->
  (1 <= week < n_weeks)%Z ->
  exists v result,
    mass_balance self upstream_flow week w
    = (stored_volume_written w self (Z.to_nat week) v, Return result)
    /\ ready n_weeks
         (heap (stored_volume_written w self (Z.to_nat week) v) self).
Proof.
  intros (Hcurve & Hcap & Hbelow & Hevap & Hinflow & Hdemand & Hsv) Hweek.
  destruct (lookup_lt_is_Some_2 (evaporation_series (heap w self))
              (Z.to_nat week)) as [rate Hrate]; [lia|].
  destruct (lookup_lt_is_Some_2 (stored_volume (heap w self))
              (Z.to_nat (week - 1))) as [previous Hprevious]; [lia|].
  destruct (lookup_lt_is_Some_2 (inflow_series (heap w self))
              (Z.to_nat week)) as [inflow Hi]; [lia|].
  destruct (lookup_lt_is_Some_2 (demand_series (heap w self))
              (Z.to_nat week)) as [demand Hd]; [lia|].
  assert (Hprev : (previous >? capacity (heap w self)) = false).
  { unfold below_capacity in Hbelow. rewrite Forall_lookup in Hbelow.
    apply (Hbelow _ _ Hprevious). }
  destruct (proj2 (calculate_area_returns self previous w)
              (conj Hprev Hcurve)) as [area Harea].
  rewrite mass_balance_unfold by lia. cbn zeta.
  rewrite Hrate, Hprevious, Harea, Hi, Hd.
  destruct (clamp _ _) as [[release unfulfilled] v] eqn:Hclamp.
  rewrite bool_decide_eq_true_2 by lia.
  exists v, (release, unfulfilled). split; [reflexivity|].
  pose proof (below_capacity_written w self (Z.to_nat week) v Hbelow
                (clamp_below_capacity _ _ _ _ _ Hcap Hclamp)) as Hbelow'.
  cbn [stored_volume_written heap] in Hbelow' |- *.
  rewrite heap_update_same in Hbelow' |- *.
  unfold ready. cbn [set_stored_volume capacity storage_area_curve
                     evaporation_series inflow_series demand_series
                     stored_volume].
  rewrite length_insert. auto 10.
Qed.

Lemma reservoir_loop_ready (member : ref -> Prop) (n_weeks : Z)
    (reservoirs : list ref) (week : Z) (upstream unfulfilled total : float)
    (w : world) :
  (1 <= week < n_weeks)%Z ->
  (forall self, self ∈ reservoirs -> member self) ->
  (forall self, member self -> ready n_weeks (heap w self)) ->
  exists w' release' unfulfilled' total',
    reservoir_loop reservoirs week
      (mkLocals (Some upstream) (Some unfulfilled) (Some total)) w
    = (w', Return (mkLocals (Some release') (Some unfulfilled') (Some total')))
    /\ (forall self, member self -> ready n_weeks (heap w' self)).
Proof.
  intros Hweek. revert upstream unfulfilled total w.
  induction reservoirs as [|reservoir rest IH];
    intros upstream unfulfilled total w Hin Hready.
  - cbn. unfold ret. eauto 10.
  - cbn [reservoir_loop release total_unfulfilled_demand read_local].
    unfold bind, ret.
    assert (Hmember : member reservoir) by (apply Hin; left).
    destruct (mass_balance_ready n_weeks reservoir upstream week w
                (Hready reservoir Hmember) Hweek)
      as (v & [rel unf] & -> & Hself).
    apply IH.
    + intros self Hself'. apply Hin. right. exact Hself'.
    + intros self Hself'.
      destruct (decide (self = reservoir)) as [->|Hne]; [exact Hself|].
      cbn [stored_volume_written heap]. rewrite heap_update_other by exact Hne.
      apply Hready, Hself'.
Qed.

Lemma week_loop_ready (member : ref -> Prop) (n_weeks : Z) (weeks : list Z)
    (reservoirs : list ref) (l : locals) (w : world) :
  (forall week, week ∈ weeks -> (1 <= week < n_weeks)%Z) ->
  (forall self, self ∈ reservoirs -> member self) ->
  (forall self, member self -> ready n_weeks (heap w self)) ->
  exists w' l',
    week_loop weeks reservoirs l w = (w', Return l')
    /\ (forall self, member self -> ready n_weeks (heap w' self))
    /\ (weeks <> [] -> exists u, unfulfilled_demand l' = Some u).
Proof.
  revert l w. induction weeks as [|week weeks IH];
    intros l w Hweeks Hin Hready.
  - exists w, l. split; [reflexivity|]. split; [exact Hready|]. congruence.
  - cbn [week_loop]. unfold bind.
    destruct (reservoir_loop_ready member n_weeks reservoirs week 0 0 0 w)
      as (w1 & rel & unf & tot & -> & Hready1); auto.
    { apply Hweeks. left. }
    destruct (IH (mkLocals (Some rel) (Some unf) (Some tot)) w1)
      as (w2 & l2 & Hloop & Hready2 & Hbound); auto.
    { intros week' Hweek'. apply Hweeks. right. exact Hweek'. }
    exists w2, l2. split; [exact Hloop|]. split; [exact Hready2|].
    intros _. destruct weeks as [|week' weeks'].
    + injection Hloop as _ <-. eauto.
    + apply Hbound. discriminate.
Qed.

(** X14: a run over [n_weeks >= 2] weeks raises nothing when every reservoir
    of the chain has a curve of two breakpoints or more, a capacity that is
    not negative, no stored volume above the capacity, and series and stored
    volumes of at least [n_weeks] entries.  The inflows, demands and
    evaporation rates themselves may be anything, and a reservoir may occur
    in the chain more than once. *)
Theorem X14_run_of_ready_chain_completes (reservoirs : list ref) (n_weeks : Z)
    (w : world) :
  (2 <= n_weeks)%Z ->
  (forall self, self ∈ reservoirs -> ready n_weeks (heap w self)) ->
  exists w',
    run_mass_balance reservoirs n_weeks w = (w', Return tt)
    /\ (forall self, self ∈ reservoirs -> ready n_weeks (heap w' self)).
Proof.
  intros Hn Hready. unfold run_mass_balance, bind.
  destruct (week_loop_ready (fun self => self ∈ reservoirs) n_weeks
              (range 1 n_weeks) reservoirs unbound w)
    as (w1 & l1 & -> & Hready1 & Hbound); auto.
  { intros week Hweek. apply elem_of_range, Hweek. }
  destruct Hbound as [u ->].
  { rewrite range_cons by lia. discriminate. }
  cbn [read_local]. unfold ret.
  destruct (u >? 0); unfold print; eauto.
Qed.

Lemma test_reservoir_ready : ready 3 test_reservoir.
Proof.
  unfold ready. cbn. split; [lia|]. split; [reflexivity|].
  split; [repeat constructor|]. lia.
Qed.

Lemma X14_run_of_ready_chain_completes_witness :
  exists w',
    run_mass_balance [0%nat; 0%nat] 3 test_world = (w', Return tt)
    /\ (forall self, self ∈ [0%nat; 0%nat] -> ready 3 (heap w' self)).
Proof.
  apply (X14_run_of_ready_chain_completes [0%nat; 0%nat] 3 test_world).
  - lia.
  - intros self _. exact test_reservoir_ready.
Defined.

(** ** Runs that do not complete *)

Lemma range_app (start mid stop : Z) :
  (start <= mid <= stop)%Z ->
  range start stop = range start mid ++ range mid stop.
Proof.
  intros H. remember (Z.to_nat (mid - start)) as k eqn:Hk.
  revert start H Hk. induction k as [|k IH]; intros start H Hk.
  - replace mid with start by lia. rewrite (range_empty start start) by lia.
    reflexivity.
  - rewrite (range_cons start stop), (range_cons start mid) by lia.
    cbn [app]. f_equal. apply IH; lia.
Qed.

Lemma week_loop_app (weeks1 weeks2 : list Z) (reservoirs : list ref)
    (l : locals) (w : world) :
  week_loop (weeks1 ++ weeks2) reservoirs l w
  = (let* l1 := week_loop weeks1 reservoirs l in
     week_loop weeks2 reservoirs l1) w.
Proof.
  revert l w. induction weeks1 as [|week weeks1 IH]; intros l w.
  - reflexivity.
  - cbn [app week_loop]. unfold bind in IH |- *.
    destruct (reservoir_loop reservoirs week
                (mkLocals (Some 0) (Some 0) (Some 0)) w) as [w1 [l1|e]];
      [apply IH|reflexivity].
Qed.

Lemma week_loop_keeps_series (weeks : list Z) (reservoirs : list ref)
    (l : locals) (w w' : world) (o : outcome locals) :
  week_loop weeks reservoirs l w = (w', o) ->
  forall obj : ref,
    evaporation_series (heap w' obj) = evaporation_series (heap w obj).
Proof.
  apply (week_loop_related
           (fun w1 w2 => forall obj : ref,
              evaporation_series (heap w2 obj)
              = evaporation_series (heap w1 obj))
           (fun _ _ => True)).
  - reflexivity.
  - intros w1 w2 w3 H12 H23 obj. rewrite H23, H12. reflexivity.
  - intros self upstream week w0 w0' [[rel unf]|e] _ Hstep obj.
    + apply mass_balance_Return_inv in Hstep.
      destruct Hstep as (? & ? & ? & ? & ? & v & _ & _ & _ & _ & _ & _ & _
                         & _ & ->).
      cbn [stored_volume_written heap]. unfold heap_update.
      destruct (Nat.eqb_spec obj self) as [->|_]; reflexivity.
    + apply mass_balance_Raise_heap in Hstep. rewrite Hstep. reflexivity.
  - auto.
Qed.

(** X15: a run is not undone when it fails.  When the reservoirs of the chain
    can be stepped for [m] weeks but the evaporation series of the first one
    has [m] entries only, a run over more than [m] weeks steps the weeks 1 to
    [m - 1] for the whole chain, then raises [IndexError] at the first read
    of week [m], and leaves the reservoirs as the [m - 1] completed weeks
    made them. *)
Theorem X15_run_past_the_series_keeps_completed_weeks (first : ref)
    (rest : list ref) (m n_weeks : Z) (w : world) :
  (1 <= m < n_weeks)%Z ->
  (forall self, self ∈ first :: rest -> ready m (heap w self)) ->
  Z.of_nat (length (evaporation_series (heap w first))) = m ->
  exists w1 l1,
    week_loop (range 1 m) (first :: rest) unbound w = (w1, Return l1)
    /\ run_mass_balance (first :: rest) n_weeks w = (w1, Raise IndexError).
Proof.
  intros Hm Hready Hlen.
  destruct (week_loop_ready (fun self => self ∈ first :: rest) m (range 1 m)
              (first :: rest) unbound w) as (w1 & l1 & Hloop & _ & _); auto.
  { intros week Hweek. apply elem_of_range, Hweek. }
  exists w1, l1. split; [exact Hloop|].
  unfold run_mass_balance.
  rewrite (range_app 1 m n_weeks) by lia.
  unfold bind at 1. rewrite week_loop_app. unfold bind at 1. rewrite Hloop.
  rewrite (range_cons m n_weeks) by lia.
  cbn [week_loop reservoir_loop release read_local]. unfold bind, ret.
  pose proof (week_loop_keeps_series _ _ _ _ _ _ Hloop first) as Hevap.
  rewrite mass_balance_unfold by lia. cbn zeta.
  rewrite (proj2 (lookup_ge_None (evaporation_series (heap w1 first))
                    (Z.to_nat m))); [reflexivity|].
  rewrite Hevap. lia.
Qed.

Lemma X15_run_past_the_series_keeps_completed_weeks_witness :
  exists w1 l1,
    week_loop (range 1 3) [0%nat] unbound test_world = (w1, Return l1)
    /\ run_mass_balance [0%nat] 522 test_world = (w1, Raise IndexError).
Proof.
  apply (X15_run_past_the_series_keeps_completed_weeks 0%nat [] 3 522
           test_world).
  - lia.
  - intros self _. exact test_reservoir_ready.
  - reflexivity.
Defined.

(** X16: with no reservoir a run over [n_weeks >= 2] weeks does nothing: it
    returns, prints nothing and leaves the world as it was, whereas with
    [n_weeks <= 1] it raises. *)
Theorem X16_run_of_empty_chain (n_weeks : Z) (w : world) :
  (2 <= n_weeks)%Z ->
  run_mass_balance [] n_weeks w = (w, Return tt).
Proof.
  intros Hn. unfold run_mass_balance, bind.
  assert (Hloop : forall weeks l, weeks <> [] ->
            week_loop weeks [] l w
            = (w, Return (mkLocals (Some 0) (Some 0) (Some 0)))).
  { induction weeks as [|week weeks IH]; intros l Hne; [congruence|].
    cbn [week_loop reservoir_loop]. unfold bind, ret.
    destruct weeks as [|week' weeks']; [reflexivity|].
    apply IH. discriminate. }
  rewrite Hloop by (rewrite range_cons by lia; discriminate).
  reflexivity.
Qed.

Lemma X16_run_of_empty_chain_witness :
  run_mass_balance [] 522 test_world = (test_world, Return tt).
Proof. apply (X16_run_of_empty_chain 522 test_world). lia. Defined.

(** * [generate_streamflow] *)

Lemma streamflow_loop_entries (randn : nat -> float)
    (np_exp np_sin : float -> float) (sin_amplitude log_mu log_sigma : float)
    (count : nat) (i : Z) (streamflows : list float) (cursor : nat) :
  (0 <= i)%Z ->
  (Z.to_nat i + count <= length streamflows)%nat ->
  exists streamflows',
    streamflow_loop randn np_exp np_sin sin_amplitude log_mu log_sigma
      i count streamflows cursor
    = (streamflows', (cursor + count)%nat)
    /\ length streamflows' = length streamflows
    /\ (forall k : nat,
          streamflows' !! k
          = if decide (Z.to_nat i <= k < Z.to_nat i + count)%nat
            then Some (streamflow_entry np_exp np_sin sin_amplitude log_mu
                         log_sigma (randn (cursor + (k - Z.to_nat i))%nat)
                         (Z.of_nat k))
            else streamflows !! k).
Proof.
  revert i streamflows cursor.
  induction count as [|count IH]; intros i streamflows cursor Hi Hlen.
  - exists streamflows. cbn. split; [f_equal; lia|]. split; [reflexivity|].
    intros k. destruct (decide _); [lia|reflexivity].
  - cbn [streamflow_loop].
    destruct (IH (i + 1)%Z
                (<[Z.to_nat i :=
                     streamflow_entry np_exp np_sin sin_amplitude log_mu
                       log_sigma (randn cursor) i]> streamflows)
                (S cursor)) as (xs & -> & Hlen' & Hxs).
    { lia. }
    { rewrite length_insert. lia. }
    exists xs. split; [f_equal; lia|].
    split; [rewrite Hlen'; apply length_insert|].
    intros k. rewrite Hxs.
    destruct (decide (Z.to_nat (i + 1) <= k < Z.to_nat (i + 1) + count)%nat)
      as [Hk|Hk].
    + rewrite decide_True by lia. do 2 f_equal. f_equal. lia.
    + destruct (decide (k = Z.to_nat i)) as [->|Hne].
      * rewrite decide_True by lia.
        rewrite list_lookup_insert_eq by lia.
        rewrite Nat.sub_diag, Nat.add_0_r, Z2Nat.id by lia. reflexivity.
      * rewrite decide_False by lia.
        apply list_lookup_insert_ne. congruence.
Qed.

Lemma generate_streamflow_entries (randn : nat -> float)
    (np_exp np_sin : float -> float) (n_weeks : Z)
    (sin_amplitude log_mu log_sigma : float) (cursor : nat) :
  (0 <= n_weeks)%Z ->
  exists streamflows,
    generate_streamflow randn np_exp np_sin n_weeks sin_amplitude log_mu
      log_sigma cursor
    = (Return streamflows, (cursor + Z.to_nat n_weeks)%nat)
    /\ length streamflows = Z.to_nat n_weeks
    /\ (forall k : nat, (k < Z.to_nat n_weeks)%nat ->
          streamflows !! k
          = Some (streamflow_entry np_exp np_sin sin_amplitude log_mu
                    log_sigma (randn (cursor + k)%nat) (Z.of_nat k))).
Proof.
  intros Hn. unfold generate_streamflow.
  replace (n_weeks <? 0)%Z with false by (symmetry; apply Z.ltb_ge; lia).
  destruct (streamflow_loop_entries randn np_exp np_sin sin_amplitude log_mu
              log_sigma (Z.to_nat n_weeks) 0
              (replicate (Z.to_nat n_weeks) 0) cursor)
    as (xs & -> & Hlen & Hxs).
  { lia. }
  { rewrite length_replicate. cbn. lia. }
  exists xs. split; [reflexivity|].
  split; [rewrite Hlen; apply length_replicate|].
  intros k Hk. rewrite Hxs. change (Z.to_nat 0) with O.
  rewrite decide_True by lia. do 3 f_equal. lia.
Qed.

(** X17: for [n_weeks >= 0], [generate_streamflow] returns an array of
    [n_weeks] entries and takes exactly [n_weeks] draws from the generator,
    one per entry and in order: entry [i] is the exponential of the [i]-th
    draw scaled by [log_sigma] plus the seasonal mean of week [i].  No entry
    is left at the zero the array was created with.  For a negative
    [n_weeks] it raises [ValueError] and takes no draw. *)
Theorem X17_streamflow_takes_one_draw_per_week (randn : nat -> float)
    (np_exp np_sin : float -> float) (n_weeks : Z)
    (sin_amplitude log_mu log_sigma : float) (cursor : nat) :
  ((n_weeks < 0)%Z ->
   generate_streamflow randn np_exp np_sin n_weeks sin_amplitude log_mu
     log_sigma cursor = (Raise ValueError, cursor))
  /\ ((0 <= n_weeks)%Z ->
      exists streamflows,
        generate_streamflow randn np_exp np_sin n_weeks sin_amplitude log_mu
          log_sigma cursor
        = (Return streamflows, (cursor + Z.to_nat n_weeks)%nat)
        /\ Z.of_nat (length streamflows) = n_weeks
        /\ (forall k : nat, (Z.of_nat k < n_weeks)%Z ->
              streamflows !! k
              = Some (np_exp
                        (randn (cursor + k)%nat * log_sigma
                         + log_mu
                           * (1 + sin_amplitude
                                  * np_sin (2 * np_pi / 52
                                            * float_of_int
                                                (Z.of_nat k mod 52))))))).
Proof.
  split.
  - intros Hn. unfold generate_streamflow.
    replace (n_weeks <? 0)%Z with true by (symmetry; apply Z.ltb_lt; lia).
    reflexivity.
  - intros Hn.
    destruct (generate_streamflow_entries randn np_exp np_sin n_weeks
                sin_amplitude log_mu log_sigma cursor Hn)
      as (xs & H & Hlen & Hxs).
    exists xs. split; [exact H|]. split; [lia|].
    intros k Hk. apply Hxs. lia.
Qed.

Lemma X17_streamflow_takes_one_draw_per_week_witness :
  exists streamflows,
    generate_streamflow (fun k => of_uint63 (Uint63Axioms.of_Z (Z.of_nat k)))
      (fun x => x) (fun x => x) 3 1 2 0.5 7%nat
    = (Return streamflows, (7 + Z.to_nat 3)%nat)
    /\ Z.of_nat (length streamflows) = 3%Z
    /\ (forall k : nat, (Z.of_nat k < 3)%Z ->
          streamflows !! k
          = Some ((of_uint63 (Uint63Axioms.of_Z (Z.of_nat (7 + k)))) * 0.5
                  + 2 * (1 + 1 * (2 * np_pi / 52
                                  * float_of_int (Z.of_nat k mod 52))))).
Proof.
  apply (proj2 (X17_streamflow_takes_one_draw_per_week
                  (fun k => of_uint63 (Uint63Axioms.of_Z (Z.of_nat k)))
                  (fun x => x) (fun x => x) 3 1 2 0.5 7%nat)).
  lia.
Defined.

(** X18: a shorter series is the beginning of a longer one.  From the same
    state of the generator and with the same parameters, the first [n]
    entries of a series of [m >= n] weeks are the series of [n] weeks. *)
Theorem X18_streamflow_prefix (randn : nat -> float)
    (np_exp np_sin : float -> float) (n m : Z)
    (sin_amplitude log_mu log_sigma : float) (cursor : nat) :
  (0 <= n <= m)%Z ->
  exists short long,
    generate_streamflow randn np_exp np_sin n sin_amplitude log_mu log_sigma
      cursor = (Return short, (cursor + Z.to_nat n)%nat)
    /\ generate_streamflow randn np_exp np_sin m sin_amplitude log_mu
         log_sigma cursor = (Return long, (cursor + Z.to_nat m)%nat)
    /\ short = take (Z.to_nat n) long.
Proof.
  intros Hnm.
  destruct (generate_streamflow_entries randn np_exp np_sin n sin_amplitude
              log_mu log_sigma cursor) as (short & Hs & Hslen & Hsx); [lia|].
  destruct (generate_streamflow_entries randn np_exp np_sin m sin_amplitude
              log_mu log_sigma cursor) as (long & Hl & Hllen & Hlx); [lia|].
  exists short, long. split; [exact Hs|]. split; [exact Hl|].
  apply list_eq. intros k.
  destruct (decide (k < Z.to_nat n)%nat) as [Hk|Hk].
  - rewrite lookup_take_lt by exact Hk. rewrite Hsx, Hlx by lia. reflexivity.
  - rewrite lookup_take_ge by lia. apply lookup_ge_None. lia.
Qed.

Lemma X18_streamflow_prefix_witness :
  exists short long,
    generate_streamflow (fun _ => 1) (fun x => x) (fun x => x) 2 1 2 0.5 0%nat
    = (Return short, (0 + Z.to_nat 2)%nat)
    /\ generate_streamflow (fun _ => 1) (fun x => x) (fun x => x) 5 1 2 0.5
         0%nat = (Return long, (0 + Z.to_nat 5)%nat)
    /\ short = take (Z.to_nat 2) long.
Proof.
  apply (X18_streamflow_prefix (fun _ => 1) (fun x => x) (fun x => x) 2 5
           1 2 0.5 0%nat).
  lia.
Defined.

(** X19: the seasonal mean has a period of 52 weeks.  Two entries of a
    series that are 52 weeks apart differ through their draws only: when the
    two draws are the same value, so are the two entries. *)
Theorem X19_streamflow_period_52 (randn : nat -> float)
    (np_exp np_sin : float -> float) (n_weeks : Z)
    (sin_amplitude log_mu log_sigma : float) (cursor : nat)
    (streamflows : list float) (cursor' k : nat) :
  generate_streamflow randn np_exp np_sin n_weeks sin_amplitude log_mu
    log_sigma cursor = (Return streamflows, cursor') ->
  (Z.of_nat k + 52 < n_weeks)%Z ->
  randn (cursor + k)%nat = randn (cursor + (k + 52))%nat ->
  streamflows !! k = streamflows !! (k + 52)%nat
  /\ is_Some (streamflows !! k).
Proof.
  intros H Hk Hdraw.
  destruct (generate_streamflow_entries randn np_exp np_sin n_weeks
              sin_amplitude log_mu log_sigma cursor)
    as (xs & H' & _ & Hxs); [lia|].
  rewrite H' in H. injection H as <- _.
  rewrite !Hxs by lia. split; [|eauto].
  unfold streamflow_entry. rewrite Hdraw.
  replace (Z.of_nat (k + 52) mod 52)%Z with (Z.of_nat k mod 52)%Z;
    [reflexivity|].
  rewrite Nat2Z.inj_add. change (Z.of_nat 52) with (1 * 52)%Z.
  symmetry. apply Z.mod_add. lia.
Qed.

Lemma X19_streamflow_period_52_witness :
  exists streamflows cursor',
    generate_streamflow (fun _ => 1) (fun x => x) (fun x => x) 56 1 2 0.5
      0%nat = (Return streamflows, cursor')
    /\ streamflows !! 3%nat = streamflows !! (3 + 52)%nat
    /\ is_Some (streamflows !! 3%nat).
Proof.
  eexists _, _. split; [vm_compute; reflexivity|].
  apply (X19_streamflow_period_52 (fun _ => 1) (fun x => x) (fun x => x) 56
           1 2 0.5 0%nat _ 56%nat 3%nat).
  - vm_compute. reflexivity.
  - lia.
  - reflexivity.
Defined.
